(** * PassStrength-Analyzer: a shallow embedding of [password_tool.py]

    The development follows the Python module function by function:
    the string primitives it relies on ([str.lower], [str.split],
    [int(...)], ...), the year parser [parse_years], the token expansion
    pipeline ([tokenize_inputs], [case_variants], [apply_leetspeak],
    [add_separators], [append_years], [build_wordlist]) and the strength
    analysis ([shannon_entropy], [analyze_password]).

    Modelling conventions.
    - A Python [str] is a [string]; the character-level operations are
      the ASCII ones (code points above 127 are caseless, non-blank and
      are not digits).
    - A Python [int] is a [Z]; a [set] of strings is a [gset string].
    - The order in which Python iterates over a [set] is unspecified:
      it is a parameter [set_iter], only known to enumerate the set.
    - The optional dependencies ([zxcvbn], the NLTK lemmatizer) and the
      clock ([datetime.now().year]) are parameters.
    - A raised exception is a value of [result]; [try]/[except] is
      [try_except].
    - Binary64 arithmetic is idealised as arithmetic over [R]
      ([math.log2 x] is [ln x / ln 2]); rounding is outside the model.
    - Integers are unbounded. [int] refuses a numeral of more than
      4300 digits, the default limit of the interpreters that have one,
      and [sys.maxsize] is the one of a 64-bit build: a [range] with
      more elements cannot be put into a list. A list is as long as
      memory allows: running out of memory is outside the model. *)

From Stdlib Require Import ZArith String Ascii List Reals Lra Lia DecimalString.
From stdpp Require Import base gmap sets list strings sorting.

Open Scope string_scope.
Open Scope list_scope.

(* ===================================================================== *)
(** ** Exceptions *)

Inductive exn : Set :=
  | ValueError
  | ZeroDivisionError
  | OverflowError.

Inductive result (A : Type) : Type :=
  | Ok (a : A)
  | Raise (e : exn).

Arguments Ok {A} a.
Arguments Raise {A} e.

#[global] Instance result_ret : MRet result := fun A a => Ok a.

#[global] Instance result_bind : MBind result := fun A B k r =>
  match r with
  | Ok a => k a
  | Raise e => Raise e
  end.

(** [try: body except ValueError: handler]. *)
Definition try_except {A} (body : result A) (handler : result A) : result A :=
  match body with
  | Ok a => Ok a
  | Raise ValueError => handler
  | Raise e => Raise e
  end.

(* ===================================================================== *)
(** ** Python string primitives (ASCII) *)

Module PyStr.

Definition code (c : ascii) : nat := nat_of_ascii c.

Definition in_range (lo hi : nat) (c : ascii) : bool :=
  (lo <=? code c)%nat && (code c <=? hi)%nat.

Definition isupper (c : ascii) : bool := in_range 65 90 c.
Definition islower (c : ascii) : bool := in_range 97 122 c.
Definition isalpha (c : ascii) : bool := isupper c || islower c.
Definition isdigit (c : ascii) : bool := in_range 48 57 c.

(** [str.isspace] on one ASCII character: what [str.strip()] and
    [str.split()] treat as blank. *)
Definition isspace (c : ascii) : bool :=
  in_range 9 13 c || in_range 28 31 c || (code c =? 32)%nat.

(** C's [isspace]: the blanks [int(...)] skips around an ASCII numeral. *)
Definition c_isspace (c : ascii) : bool :=
  in_range 9 13 c || (code c =? 32)%nat.

Definition lower_char (c : ascii) : ascii :=
  if isupper c then ascii_of_nat (code c + 32) else c.

Definition upper_char (c : ascii) : ascii :=
  if islower c then ascii_of_nat (code c - 32) else c.

Fixpoint map_chars (f : ascii -> ascii) (s : string) : string :=
  match s with
  | EmptyString => EmptyString
  | String c r => String (f c) (map_chars f r)
  end.

(** [s.lower()], [s.upper()]. *)
Definition lower (s : string) : string := map_chars lower_char s.
Definition upper (s : string) : string := map_chars upper_char s.

(** [s.title()]: a cased character is upper-cased when the character
    before it is not cased, and lower-cased otherwise. *)
Fixpoint title_from (previous_is_cased : bool) (s : string) : string :=
  match s with
  | EmptyString => EmptyString
  | String c r =>
      String (if previous_is_cased then lower_char c else upper_char c)
             (title_from (isalpha c) r)
  end.

Definition title (s : string) : string := title_from false s.

(** [s.replace(old, new)] for one-character [old] and [new]. *)
Definition replace (old new : ascii) (s : string) : string :=
  map_chars (fun c => if Ascii.eqb c old then new else c) s.

(** [old in s] for a one-character [old]. *)
Fixpoint contains (old : ascii) (s : string) : bool :=
  match s with
  | EmptyString => false
  | String c r => Ascii.eqb c old || contains old r
  end.

Fixpoint lstrip_with (blank : ascii -> bool) (s : string) : string :=
  match s with
  | EmptyString => EmptyString
  | String c r => if blank c then lstrip_with blank r else s
  end.

Fixpoint rstrip_with (blank : ascii -> bool) (s : string) : string :=
  match s with
  | EmptyString => EmptyString
  | String c r =>
      match rstrip_with blank r with
      | EmptyString => if blank c then EmptyString else String c EmptyString
      | r' => String c r'
      end
  end.

Definition strip_with (blank : ascii -> bool) (s : string) : string :=
  rstrip_with blank (lstrip_with blank s).

(** [s.strip()]. *)
Definition strip (s : string) : string := strip_with isspace s.

Definition is_empty (s : string) : bool :=
  match s with
  | EmptyString => true
  | String _ _ => false
  end.

(** [s.split()]: the maximal runs of non-blank characters. *)
Fixpoint split_ws_from (word : string) (s : string) : list string :=
  match s with
  | EmptyString => if is_empty word then [] else [word]
  | String c r =>
      if isspace c
      then (if is_empty word then split_ws_from EmptyString r
            else word :: split_ws_from EmptyString r)
      else split_ws_from (word +:+ String c EmptyString) r
  end.

Definition split_ws (s : string) : list string := split_ws_from EmptyString s.

(** [s.split(sep)] for a one-character [sep]: never empty. *)
Fixpoint split (sep : ascii) (s : string) : list string :=
  match s with
  | EmptyString => [EmptyString]
  | String c r =>
      if Ascii.eqb c sep then EmptyString :: split sep r
      else match split sep r with
           | w :: ws => String c w :: ws
           | [] => [String c EmptyString]
           end
  end.

(** [s.split(sep, 1)]: cut at the first [sep] only. *)
Fixpoint split_once (sep : ascii) (s : string) : list string :=
  match s with
  | EmptyString => [EmptyString]
  | String c r =>
      if Ascii.eqb c sep then [EmptyString; r]
      else match split_once sep r with
           | w :: ws => String c w :: ws
           | [] => [String c EmptyString]
           end
  end.

(** [sep.join(words)]. *)
Fixpoint join (sep : string) (words : list string) : string :=
  match words with
  | [] => EmptyString
  | [w] => w
  | w :: ws => w +:+ sep +:+ join sep ws
  end.

(** [str(n)] for an [int]. *)
Definition str (n : Z) : string := NilZero.string_of_int (Z.to_int n).

(** [s[-2:]]. *)
Definition last_two (s : string) : string :=
  substring (String.length s - 2) 2 s.

(** The digits of a decimal numeral, where single underscores may
    separate digits. *)
Fixpoint digits_from (acc : Z) (previous_is_digit : bool) (s : string)
  : option Z :=
  match s with
  | EmptyString => if previous_is_digit then Some acc else None
  | String c r =>
      if isdigit c
      then digits_from (10 * acc + (Z.of_nat (code c) - 48))%Z true r
      else if Ascii.eqb c "_" && previous_is_digit
           then digits_from acc false r
           else None
  end.

(** The default of [sys.get_int_max_str_digits()]. *)
Definition int_max_str_digits : nat := 4300.

Fixpoint count_digits (s : string) : nat :=
  match s with
  | EmptyString => 0
  | String c r => (if isdigit c then 1 else 0) + count_digits r
  end.

(** [int(s)]: blanks around, an optional sign, then the digits, of
    which there may be no more than [int_max_str_digits]. *)
Definition int (s : string) : result Z :=
  let stripped := strip_with c_isspace s in
  let numeral :=
    match stripped with
    | String "+" r => digits_from 0 false r
    | String "-" r => Z.opp <$> digits_from 0 false r
    | t => digits_from 0 false t
    end in
  match numeral with
  | Some n =>
      if (int_max_str_digits <? count_digits stripped)%nat
      then Raise ValueError
      else Ok n
  | None => Raise ValueError
  end.

(** [range(a, b)] as a list. *)
Definition range (a b : Z) : list Z := seqZ a (b - a).

(** [sys.maxsize]. *)
Definition maxsize : Z := 2 ^ 63 - 1.

(** [l.extend(range(a, b))]: the length of the range has to fit
    [sys.maxsize]. *)
Definition extend_range (l : list Z) (a b : Z) : result (list Z) :=
  if (maxsize <? b - a)%Z then Raise OverflowError
  else Ok (l ++ range a b).

(** [list(dict.fromkeys(l))]: first occurrences, in order. *)
Fixpoint fromkeys_from (seen : list string) (l : list string) : list string :=
  match l with
  | [] => []
  | x :: r =>
      if bool_decide (x ∈ seen) then fromkeys_from seen r
      else x :: fromkeys_from (x :: seen) r
  end.

Definition dict_fromkeys (l : list string) : list string := fromkeys_from [] l.

(** [l[:k]] *)
Definition slice_to {A} (l : list A) (k : Z) : list A :=
  if (0 <=? k)%Z then take (Z.to_nat k) l
  else take (Z.to_nat (Z.of_nat (length l) + k)) l.

End PyStr.

(* ===================================================================== *)
(** ** Year-range parsing *)

(** One turn of the loop of [parse_years] over the comma-separated
    entries: the years collected so far, extended by what [part] denotes.
    A [ValueError] of [int] is caught and the entry skipped; the
    [OverflowError] of [extend] on too long a range is not caught; the
    tuple unpacking of [part.split("-", 1)] stands outside the [try]. *)
Definition parse_years_entry (years : list Z) (part : string) : result (list Z) :=
  let part := PyStr.strip part in
  if PyStr.is_empty part then Ok years
  else if PyStr.contains "-" part then
    match PyStr.split_once "-" part with
    | [start; end_] =>
        try_except
          (a ← PyStr.int start;
           b ← PyStr.int end_;
           PyStr.extend_range years a (b + 1))
          (Ok years)
    | _ => Raise ValueError
    end
  else
    try_except (y ← PyStr.int part; Ok (years ++ [y])) (Ok years).

Fixpoint parse_years_loop (years : list Z) (parts : list string)
  : result (list Z) :=
  match parts with
  | [] => Ok years
  | part :: rest =>
      years' ← parse_years_entry years part;
      parse_years_loop years' rest
  end.

Definition year_in_bounds (y : Z) : Prop := (1900 <= y <= 2100)%Z.

#[global] Instance year_in_bounds_dec (y : Z) : Decision (year_in_bounds y).
Proof. unfold year_in_bounds. apply _. Defined.

(** [sorted(set(l))]. *)
Definition sorted_set (l : list Z) : list Z :=
  merge_sort Z.le (elements (list_to_set l : gset Z)).

Definition default_window (current_year : Z) : list Z :=
  [current_year - 1; current_year; current_year + 1]%Z.

(** [parse_years(years_arg)], with [datetime.now().year] as [current_year]. *)
Definition parse_years (current_year : Z) (years_arg : string) : result (list Z) :=
  years ← parse_years_loop [] (PyStr.split "," years_arg);
  let years :=
    match years with
    | [] => default_window current_year
    | _ => years
    end in
  Ok (sorted_set (filter year_in_bounds years)).

(* ===================================================================== *)
(** ** Token expansion *)

(** The [LEET_MAP] dictionary, in the order it is written. *)
Definition LEET_MAP : list (ascii * list ascii) :=
  [ ("a", ["4"; "@"]);
    ("b", ["8"]);
    ("e", ["3"]);
    ("g", ["6"; "9"]);
    ("i", ["1"; "!"]);
    ("l", ["1"; "|"]);
    ("o", ["0"]);
    ("s", ["5"; "$"]);
    ("t", ["7"]);
    ("z", ["2"]) ]%char.

(** [d.get(key)] on a dictionary written as its items. *)
Fixpoint dict_get {V} (d : list (ascii * V)) (key : ascii) : option V :=
  match d with
  | [] => None
  | (k, v) :: rest => if Ascii.eqb k key then Some v else dict_get rest key
  end.

(** The [options] list built for one character of the token. *)
Definition leet_options (ch : ascii) : list ascii :=
  match dict_get LEET_MAP (PyStr.lower_char ch) with
  | Some subs => ch :: subs
  | None => [ch]
  end.

(** [itertools.product] of the lists in [chars]: the rightmost position
    varies fastest. *)
Fixpoint product {A} (chars : list (list A)) : list (list A) :=
  match chars with
  | [] => [[]]
  | options :: rest =>
      flat_map (fun x => map (cons x) (product rest)) options
  end.

(** The loop of [apply_leetspeak] over the combinations still to come:
    add one, then stop as soon as the set has [max_variants] members. *)
Fixpoint leet_collect (max_variants : Z) (variants : gset string)
    (combos : list (list ascii)) : gset string :=
  match combos with
  | [] => variants
  | combo :: rest =>
      let variants := variants ∪ {[ string_of_list_ascii combo ]} in
      if (max_variants <=? Z.of_nat (size variants))%Z then variants
      else leet_collect max_variants variants rest
  end.

Definition apply_leetspeak (token : string) (max_variants : Z) : gset string :=
  let chars := map leet_options (list_ascii_of_string token) in
  leet_collect max_variants ∅ (product chars).

Definition default_max_variants : Z := 128.

Definition case_variants (token : string) : gset string :=
  let variants : gset string :=
    {[ PyStr.lower token; PyStr.upper token; PyStr.title token ]} in
  match token with
  | String c rest =>
      if PyStr.isalpha c
      then variants ∪ {[ String (PyStr.upper_char c) rest ]}
      else variants
  | EmptyString => variants
  end.

(** [append_years]: each token, the token followed by each year, and the
    token followed by the last two characters of the year's numeral. *)
Definition append_years (tokens : list string) (years : list Z) : gset string :=
  foldl (fun combos token =>
           foldl (fun combos y =>
                    combos ∪ {[ token +:+ PyStr.str y ]}
                           ∪ {[ token +:+ PyStr.last_two (PyStr.str y) ]})
                 (combos ∪ {[ token ]}) years)
        ∅ tokens.

(** [itertools.permutations(tokens, 2)]: the ordered pairs of two
    different positions. *)
Definition permutations2 {A} (tokens : list A) : list (A * A) :=
  flat_map (fun '(i, a) =>
              flat_map (fun '(j, b) => if (i =? j)%nat then [] else [(a, b)])
                       (imap pair tokens))
           (imap pair tokens).

Definition add_separators (tokens : list string) (separators : list string)
  : gset string :=
  foldl (fun combos '(a, b) =>
           foldl (fun combos sep => combos ∪ {[ a +:+ sep +:+ b ]})
                 combos separators)
        ∅ (permutations2 tokens).

(* ===================================================================== *)
(** ** The wordlist builder *)

Section Pipeline.

(** The order in which a [set] of strings is iterated. *)
Variable set_iter : gset string -> list string.

(** What [ensure_nltk()] returns: [None] when NLTK is missing, else the
    lemmatizer, whose [lemmatize] answers [None] when it raises. *)
Variable lemmatizer : option (string -> option string).

(** The tokens appended for one blank-separated word of an input. *)
Definition tokens_of_word (token : string) : list string :=
  let token := PyStr.strip token in
  if PyStr.is_empty token then []
  else
    token ::
      match lemmatizer with
      | Some lemmatize =>
          match lemmatize token with
          | Some lemma => [lemma]
          | None => []
          end
      | None => []
      end.

Definition tokenize_inputs (raw_inputs : list string) : list string :=
  let tokens :=
    flat_map (fun item =>
                flat_map tokens_of_word
                  (PyStr.split_ws
                     (PyStr.replace "-" " " (PyStr.replace "_" " " item))))
             raw_inputs in
  PyStr.dict_fromkeys tokens.

(** The first loop of [build_wordlist]. *)
Definition expand_tokens (include_leet : bool) (base_tokens : list string)
  : gset string :=
  foldl (fun expanded token =>
           let expanded := expanded ∪ case_variants token in
           if include_leet
           then expanded ∪ apply_leetspeak token default_max_variants
           else expanded)
        ∅ base_tokens.

(** The set [expanded] as it stands when it is turned into a list. *)
Definition wordlist_set (user_inputs : list string) (years : list Z)
    (separators : list string) (include_leet : bool) : gset string :=
  let base_tokens := tokenize_inputs user_inputs in
  let expanded := expand_tokens include_leet base_tokens in
  let expanded := expanded ∪ add_separators (set_iter expanded) separators in
  append_years (set_iter expanded) years.

Definition build_wordlist (user_inputs : list string) (years : list Z)
    (separators : list string) (include_leet : bool) (max_size : Z)
  : list string :=
  let expanded := wordlist_set user_inputs years separators include_leet in
  let wordlist := PyStr.dict_fromkeys (set_iter expanded) in
  if (max_size <? Z.of_nat (length wordlist))%Z
  then PyStr.slice_to wordlist max_size
  else wordlist.

End Pipeline.

Definition default_max_size : Z := 50000.

(* ===================================================================== *)
(** ** Strength analysis *)

Record StrengthResult : Type := {
  password : string;
  score : Z;
  crack_time_display : string;
  feedback : string;
  entropy_bits : R
}.

(** What the code reads of the dictionary [zxcvbn] returns; a missing key
    is [None]. *)
Record ZxcvbnResult : Type := {
  zx_score : option Z;
  zx_offline_slow_hashing : option string;
  zx_warning : option string;
  zx_suggestions : option (list string)
}.

(** [math.log2 x]: a domain error unless [x] is positive. *)
Definition math_log2 (x : R) : result R :=
  if Rlt_dec 0 x then Ok (ln x / ln 2)%R else Raise ValueError.

(** [x / y] and [x // y] on floats. *)
Definition true_div (x y : R) : result R :=
  if Req_dec_T y 0 then Raise ZeroDivisionError else Ok (x / y)%R.

Definition floor_div (x y : R) : result R :=
  if Req_dec_T y 0 then Raise ZeroDivisionError
  else Ok (IZR (Int_part (x / y))).

(** [int(x)] on a float: towards zero. *)
Definition int_of_float (x : R) : Z :=
  if Rle_dec 0 x then Int_part x else (- Int_part (- x))%Z.

(** [sum(values)]. *)
Definition sum (values : list R) : R := foldl Rplus 0%R values.

(** [set(password)], listed. *)
Definition char_set (password : string) : list ascii :=
  elements (list_to_set (list_ascii_of_string password) : gset ascii).

(** [password.count(ch)]. *)
Fixpoint count (ch : ascii) (password : string) : nat :=
  match password with
  | EmptyString => 0
  | String c rest => (if Ascii.eqb c ch then 1 else 0) + count ch rest
  end.

(** One term [(c / length) * math.log2(c / length)] of the entropy sum. *)
Definition entropy_term (length : R) (c : nat) : result R :=
  p ← true_div (INR c) length;
  q ← true_div (INR c) length;
  l ← math_log2 q;
  Ok (p * l)%R.

Definition shannon_entropy (password : string) : result R :=
  if PyStr.is_empty password then Ok 0%R
  else
    let freq := map (fun ch => (ch, count ch password)) (char_set password) in
    let length := INR (String.length password) in
    terms ← mapM (fun '(_, c) => entropy_term length c) freq;
    let entropy := (- sum terms)%R in
    Ok (entropy * length)%R.

(** [char_space or 1]. *)
Definition or_one (char_space : nat) : nat :=
  if (char_space =? 0)%nat then 1 else char_space.

(** The [naive_bits] of the fallback branch, from [len(set(password))]
    and [len(password)]. *)
Definition naive_bits_of (char_space len : nat) : result R :=
  l ← math_log2 (INR (or_one char_space));
  Ok (l * INR len)%R.

Definition naive_bits (password : string) : result R :=
  naive_bits_of (length (char_set password)) (String.length password).

Definition fallback_score (password : string) : result Z :=
  bits ← naive_bits password;
  q ← floor_div bits 20;
  Ok (Z.min 4 (int_of_float q)).

Definition or_default {A} (default : A) (o : option A) : A :=
  match o with
  | Some a => a
  | None => default
  end.

Definition or_else (s default : string) : string :=
  if PyStr.is_empty s then default else s.

(** [analyze_password]; [zxcvbn] is [None] when the import failed. *)
Definition analyze_password
    (zxcvbn : option (string -> list string -> result ZxcvbnResult))
    (password : string) (user_inputs : option (list string))
  : result StrengthResult :=
  let user_inputs := or_default [] user_inputs in
  entropy_bits ← shannon_entropy password;
  match zxcvbn with
  | Some zxcvbn =>
      result ← zxcvbn password user_inputs;
      let score := or_default 0%Z (zx_score result) in
      let crack_time_display := or_default "n/a" (zx_offline_slow_hashing result) in
      let warning := or_default "" (zx_warning result) in
      let suggestions := or_default [] (zx_suggestions result) in
      let feedback :=
        or_else
          (PyStr.strip_with (fun c => Ascii.eqb c " " || Ascii.eqb c ".")
             (PyStr.join ". " (warning :: suggestions)))
          "No feedback" in
      Ok {| password := password; score := score;
            crack_time_display := crack_time_display;
            feedback := feedback; entropy_bits := entropy_bits |}
  | None =>
      score ← fallback_score password;
      Ok {| password := password; score := score;
            crack_time_display := "zxcvbn not installed; using heuristic";
            feedback := "Install zxcvbn for richer analysis";
            entropy_bits := entropy_bits |}
  end.

(* ===================================================================== *)
(** ** Notions used in the statements *)

(** What one comma-separated entry adds to the collected list, or the
    exception it raises. *)
Definition entry_years (part : string) : result (list Z) :=
  parse_years_entry [] part.

(** The years [parse_years] collects before it filters them, or the
    exception the loop raises. *)
Definition collected_years (years_arg : string) : result (list Z) :=
  parse_years_loop [] (PyStr.split "," years_arg).

(** An entry, blanks stripped, that the loop reads as a single year: it
    has no hyphen and [int] accepts it ... *)
Definition single_year (part : string) : Prop :=
  PyStr.contains "-" part = false /\ exists y, PyStr.int part = Ok y.

(** ... or as a range [start-end]: cut at its first hyphen, [int]
    accepts both sides. An entry that starts with a hyphen, such as
    "-5", is neither. *)
Definition year_range (part : string) : Prop :=
  exists start end_ a b,
    part = start +:+ "-" +:+ end_
    /\ PyStr.contains "-" start = false
    /\ PyStr.int start = Ok a /\ PyStr.int end_ = Ok b.

Definition year_entry (part : string) : Prop :=
  single_year part \/ year_range part.

(** The character counts [freq.values()] of [shannon_entropy]. *)
Definition counts (password : string) : list nat :=
  map (fun ch => count ch password) (char_set password).

(** The value of one entropy term when nothing is raised. *)
Definition term_value (length : R) (c : nat) : R :=
  (INR c / length * (ln (INR c / length) / ln 2))%R.

(** A stem of the wordlist: an expanded variant, or two different ones
    joined by a separator. *)
Definition is_stem (expanded : gset string) (separators : list string)
    (stem : string) : Prop :=
  stem ∈ expanded
  \/ exists a b sep,
       a ∈ expanded /\ b ∈ expanded /\ a <> b /\ sep ∈ separators
       /\ stem = a +:+ sep +:+ b.

(** A character at which [tokenize_inputs] breaks an input: a blank, an
    underscore or a hyphen. *)
Definition word_break (c : ascii) : bool :=
  PyStr.isspace c || Ascii.eqb c "_" || Ascii.eqb c "-".

(** What one token contributes for one year in [append_years]. *)
Definition year_forms (token : string) (y : Z) (word : string) : Prop :=
  word = token +:+ PyStr.str y \/ word = token +:+ PyStr.last_two (PyStr.str y).

(* ===================================================================== *)
(** ** The definitions on small inputs *)

Example lower_Rex : PyStr.lower "Rex" = "rex". Proof. reflexivity. Qed.
Example upper_Rex : PyStr.upper "Rex" = "REX". Proof. reflexivity. Qed.
Example title_words : PyStr.title "rex2go mcFLY" = "Rex2Go Mcfly".
Proof. reflexivity. Qed.
Example strip_blanks : PyStr.strip "  a b  " = "a b". Proof. reflexivity. Qed.
Example split_ws_runs : PyStr.split_ws "  ab  c d " = ["ab"; "c"; "d"].
Proof. reflexivity. Qed.
Example split_commas : PyStr.split "," "a,,b," = ["a"; ""; "b"; ""].
Proof. reflexivity. Qed.
Example split_once_dash : PyStr.split_once "-" "1990--5" = ["1990"; "-5"].
Proof. reflexivity. Qed.
Example int_plain : PyStr.int " 2024 " = Ok 2024%Z. Proof. reflexivity. Qed.
Example int_underscore : PyStr.int "-1_000" = Ok (-1000)%Z.
Proof. reflexivity. Qed.
Example int_bad : PyStr.int "12a" = Raise ValueError. Proof. reflexivity. Qed.
Example int_empty : PyStr.int "" = Raise ValueError. Proof. reflexivity. Qed.
Example int_double_underscore : PyStr.int "1__0" = Raise ValueError.
Proof. reflexivity. Qed.
Example int_at_limit :
  PyStr.int (string_of_list_ascii (repeat "1"%char 4300)) <> Raise ValueError.
Proof. vm_compute. discriminate. Qed.
Example int_over_limit :
  PyStr.int (string_of_list_ascii (repeat "1"%char 4301)) = Raise ValueError.
Proof. vm_compute. reflexivity. Qed.
Example str_year : PyStr.str 2024 = "2024". Proof. reflexivity. Qed.
Example last_two_year : PyStr.last_two (PyStr.str 2024) = "24".
Proof. reflexivity. Qed.
Example last_two_short : PyStr.last_two (PyStr.str 7) = "7".
Proof. reflexivity. Qed.
Example fromkeys_order : PyStr.dict_fromkeys ["b"; "a"; "b"; "c"; "a"] = ["b"; "a"; "c"].
Proof. reflexivity. Qed.
Example slice_negative : PyStr.slice_to [1; 2; 3]%Z (-1) = [1; 2]%Z.
Proof. reflexivity. Qed.
Example parse_years_list :
  parse_years 2026 "1990-1992,2024" = Ok [1990; 1991; 1992; 2024]%Z.
Proof. vm_compute. reflexivity. Qed.
Example parse_years_blank :
  parse_years 2026 "" = Ok [2025; 2026; 2027]%Z.
Proof. vm_compute. reflexivity. Qed.
Example parse_years_skips :
  parse_years 2026 "abc, 2001 ,x-y,2003-2001,2001" = Ok [2001]%Z.
Proof. vm_compute. reflexivity. Qed.
Example parse_years_old : parse_years 2026 "1800" = Ok [].
Proof. vm_compute. reflexivity. Qed.
Example parse_years_negative : parse_years 2026 "-5" = Ok [2025; 2026; 2027]%Z.
Proof. vm_compute. reflexivity. Qed.
Example parse_years_empty_range :
  parse_years 2026 "2200-2100" = Ok [2025; 2026; 2027]%Z.
Proof. vm_compute. reflexivity. Qed.
Example parse_years_too_long :
  parse_years 2026 "1-10000000000000000000" = Raise OverflowError.
Proof. vm_compute. reflexivity. Qed.
Example product_order :
  product [[1; 2]; [3]; [4; 5]]%nat = [[1; 3; 4]; [1; 3; 5]; [2; 3; 4]; [2; 3; 5]]%nat.
Proof. reflexivity. Qed.
Example product_nothing : product (A := nat) [] = [[]].
Proof. reflexivity. Qed.
Example permutations2_order :
  permutations2 [1; 2; 3]%nat = [(1, 2); (1, 3); (2, 1); (2, 3); (3, 1); (3, 2)]%nat.
Proof. reflexivity. Qed.
Example leet_Rex : apply_leetspeak "Rex" 128 = {[ "Rex"; "R3x" ]}.
Proof. vm_compute. reflexivity. Qed.
Example leet_capped : size (apply_leetspeak "assets" 5) = 5%nat.
Proof. vm_compute. reflexivity. Qed.
Example case_Rex : case_variants "Rex" = {[ "rex"; "REX"; "Rex" ]}.
Proof. vm_compute. reflexivity. Qed.
Example case_mixed : case_variants "mcFly" = {[ "mcfly"; "MCFLY"; "Mcfly"; "McFly" ]}.
Proof. vm_compute. reflexivity. Qed.
Example years_Rex :
  append_years ["Rex"] [2024]%Z = {[ "Rex"; "Rex2024"; "Rex24" ]}.
Proof. vm_compute. reflexivity. Qed.
Example separators_ab :
  add_separators ["a"; "b"] [""; "_"] = {[ "ab"; "a_b"; "ba"; "b_a" ]}.
Proof. vm_compute. reflexivity. Qed.

(* ===================================================================== *)
(** ** Leetspeak substitution *)

Section Leetspeak.

Implicit Types (token : string) (variants : gset string).
Implicit Types (combos : list (list ascii)) (max_variants : Z).

Lemma leet_options_head (ch : ascii) :
  exists subs, leet_options ch = ch :: subs.
Proof.
  unfold leet_options.
  destruct (dict_get LEET_MAP (PyStr.lower_char ch)); eauto.
Qed.

(** The first combination [itertools.product] yields picks the first
    option everywhere, which is the character itself. *)
Lemma product_identity_first (chars : list ascii) :
  exists later, product (map leet_options chars) = chars :: later.
Proof.
  induction chars as [|ch chars [later IH]]; simpl.
  - by exists [].
  - destruct (leet_options_head ch) as [subs ->]. simpl.
    rewrite IH. simpl. eauto.
Qed.

Lemma leet_collect_grows max_variants variants combos :
  variants ⊆ leet_collect max_variants variants combos.
Proof.
  revert variants.
  induction combos as [|combo rest IH]; intros variants; simpl; [done|].
  case_match; [set_solver|].
  etrans; [|apply IH]. set_solver.
Qed.

Lemma leet_collect_first max_variants variants combo rest :
  string_of_list_ascii combo ∈ leet_collect max_variants variants (combo :: rest).
Proof.
  simpl. case_match; [set_solver|].
  apply leet_collect_grows. set_solver.
Qed.

Lemma size_add_one variants (word : string) :
  size (variants ∪ {[ word ]}) <= S (size variants).
Proof.
  rewrite size_union_alt.
  assert (size ({[ word ]} ∖ variants : gset string) <= 1); [|lia].
  rewrite <- (size_singleton (C := gset string) word).
  apply subseteq_size, subseteq_difference_l. done.
Qed.

(** The loop keeps the set below the cap while it runs, and leaves as
    soon as the cap is met. *)
Lemma leet_collect_bound max_variants variants combos :
  (Z.of_nat (size variants) < max_variants)%Z ->
  (Z.of_nat (size (leet_collect max_variants variants combos)) <= max_variants)%Z.
Proof.
  revert variants.
  induction combos as [|combo rest IH]; intros variants Hlt; simpl; [lia|].
  pose proof (size_add_one variants (string_of_list_ascii combo)).
  destruct (Z.leb_spec max_variants
              (Z.of_nat (size (variants ∪ {[ string_of_list_ascii combo ]}))));
    [lia|].
  apply IH. lia.
Qed.

Lemma apply_leetspeak_nonpositive_cap token max_variants :
  (max_variants <= 0)%Z -> apply_leetspeak token max_variants = {[ token ]}.
Proof.
  intros Hcap. unfold apply_leetspeak.
  destruct (product_identity_first (list_ascii_of_string token)) as [later ->].
  cbn [leet_collect]. rewrite string_of_list_ascii_of_string.
  rewrite (left_id_L ∅ (∪)), size_singleton.
  destruct (Z.leb_spec max_variants (Z.of_nat 1)); [done|lia].
Qed.

End Leetspeak.

(** C7, as the code has it: with a cap of at least one, and so with the
    default cap of 128, [apply_leetspeak] returns at most [max_variants]
    variants, whatever the token; with a cap below one it still returns
    one variant, the token itself. *)
Theorem apply_leetspeak_bounded (token : string) (max_variants : Z) :
  (1 <= max_variants)%Z ->
  (Z.of_nat (size (apply_leetspeak token max_variants)) <= max_variants)%Z
  /\ size (apply_leetspeak token default_max_variants) <= 128
  /\ forall cap, (cap <= 0)%Z -> apply_leetspeak token cap = {[ token ]}.
Proof.
  intros Hcap. split_and!.
  - apply leet_collect_bound. rewrite size_empty. lia.
  - assert (Z.of_nat (size (apply_leetspeak token default_max_variants)) <= 128)%Z;
      [|lia].
    apply leet_collect_bound. rewrite size_empty. done.
  - apply apply_leetspeak_nonpositive_cap.
Qed.

(** The bound at work: "assets" has 3 * 3 * 2 * 2 * 3 = 108 combinations,
    cut to five. *)
Lemma apply_leetspeak_bounded_witness :
  (1 <= 5)%Z /\ (Z.of_nat (size (apply_leetspeak "assets" 5)) <= 5)%Z.
Proof.
  split; [lia|].
  apply (apply_leetspeak_bounded "assets" 5). lia.
Defined.

(** C7 as stated fails for a cap of zero: the variant is added before
    the cap is looked at, so one variant comes back. *)
Lemma apply_leetspeak_cap_zero :
  ~ (Z.of_nat (size (apply_leetspeak "a" 0)) <= 0)%Z.
Proof. vm_compute. intros H. apply H. reflexivity. Qed.

(** C8: the token itself is always among the variants [apply_leetspeak]
    returns, at every cap. *)
Theorem apply_leetspeak_keeps_token (token : string) (max_variants : Z) :
  token ∈ apply_leetspeak token max_variants.
Proof.
  unfold apply_leetspeak.
  destruct (product_identity_first (list_ascii_of_string token)) as [later ->].
  rewrite <- (string_of_list_ascii_of_string token) at 1.
  apply leet_collect_first.
Qed.

(* ===================================================================== *)
(** ** Year suffixes and separator joins *)

(** Membership in a union of sets and singletons. *)
Ltac union_member :=
  rewrite ?elem_of_union, ?elem_of_singleton; intuition auto.

Section Combos.

Implicit Types (tokens separators : list string) (years : list Z).
Implicit Types (combos : gset string) (word token : string).

Lemma elem_of_flat_map {A B} (f : A -> list B) (l : list A) (b : B) :
  b ∈ flat_map f l <-> exists a, a ∈ l /\ b ∈ f a.
Proof.
  rewrite list_elem_of_In, in_flat_map.
  split; intros (a & Ha & Hb); exists a.
  - by rewrite !list_elem_of_In.
  - by rewrite <- !list_elem_of_In.
Qed.

Lemma append_years_inner token years combos word :
  word ∈ foldl (fun combos y =>
                  combos ∪ {[ token +:+ PyStr.str y ]}
                         ∪ {[ token +:+ PyStr.last_two (PyStr.str y) ]})
               combos years
  <-> word ∈ combos \/ exists y, y ∈ years /\ year_forms token y word.
Proof.
  revert combos.
  induction years as [|y years IH]; intros combos; simpl.
  - split; [by left|]. intros [?|(y & Hy & _)]; [done|]. by apply elem_of_nil in Hy.
  - rewrite IH. unfold year_forms. split.
    + intros [Hw|(y' & Hy' & Hf)].
      * apply elem_of_union in Hw as [Hw|Hw%elem_of_singleton].
        -- apply elem_of_union in Hw as [Hw|Hw%elem_of_singleton]; [by left|].
           right. exists y. split; [left|]; auto.
        -- right. exists y. split; [left|]; auto.
      * right. exists y'. split; [by right|done].
    + intros [Hw|(y' & Hy' & Hf)]; [left; union_member|].
      apply elem_of_cons in Hy' as [->|Hy'].
      * left. destruct Hf as [->| ->]; union_member.
      * right. by exists y'.
Qed.

Lemma append_years_from tokens years combos word :
  word ∈ foldl (fun combos token =>
                  foldl (fun combos y =>
                           combos ∪ {[ token +:+ PyStr.str y ]}
                                  ∪ {[ token +:+ PyStr.last_two (PyStr.str y) ]})
                        (combos ∪ {[ token ]}) years)
               combos tokens
  <-> word ∈ combos
      \/ exists token, token ∈ tokens
           /\ (word = token \/ exists y, y ∈ years /\ year_forms token y word).
Proof.
  revert combos.
  induction tokens as [|token tokens IH]; intros combos; simpl.
  - split; [by left|]. intros [?|(t & Ht & _)]; [done|]. by apply elem_of_nil in Ht.
  - rewrite IH, append_years_inner. split.
    + intros [[Hw|Hy]|(t & Ht & Hf)].
      * apply elem_of_union in Hw as [Hw|Hw%elem_of_singleton]; [by left|].
        right. exists token. split; [left|]; auto.
      * right. exists token. split; [left|]; auto.
      * right. exists t. split; [by right|done].
    + intros [Hw|(t & Ht & Hf)]; [left; left; union_member|].
      apply elem_of_cons in Ht as [->|Ht].
      * left. destruct Hf as [->|Hf]; [left; union_member|by right].
      * right. by exists t.
Qed.

(** The members of [append_years tokens years]. *)
Lemma elem_of_append_years tokens years word :
  word ∈ append_years tokens years
  <-> exists token, token ∈ tokens
        /\ (word = token \/ exists y, y ∈ years /\ year_forms token y word).
Proof.
  unfold append_years. rewrite append_years_from.
  split; [intros [Hw|?]; [|done]|by right].
  by apply elem_of_empty in Hw.
Qed.

Lemma elem_of_permutations2 {A} (l : list A) (a b : A) :
  (a, b) ∈ permutations2 l
  <-> exists i j, i <> j /\ l !! i = Some a /\ l !! j = Some b.
Proof.
  unfold permutations2. rewrite elem_of_flat_map. split.
  - intros ([i a'] & Hi & Hab).
    apply elem_of_lookup_imap in Hi as (i' & a'' & [= -> ->] & Hi).
    apply elem_of_flat_map in Hab as ([j b'] & Hj & Hab).
    apply elem_of_lookup_imap in Hj as (j' & b'' & [= -> ->] & Hj).
    destruct (Nat.eqb_spec i' j') as [->|Hne]; [by apply elem_of_nil in Hab|].
    apply list_elem_of_singleton in Hab as [= -> ->]. eauto.
  - intros (i & j & Hne & Hi & Hj).
    exists (i, a). split; [apply elem_of_lookup_imap; eauto|].
    apply elem_of_flat_map. exists (j, b).
    split; [apply elem_of_lookup_imap; eauto|].
    destruct (Nat.eqb_spec i j); [done|]. by apply list_elem_of_singleton.
Qed.

(** In a list without repetition two positions differ exactly when the
    entries they hold differ. *)
Lemma elem_of_permutations2_NoDup {A} (l : list A) (a b : A) :
  NoDup l ->
  (a, b) ∈ permutations2 l <-> a ∈ l /\ b ∈ l /\ a <> b.
Proof.
  intros Hnd. rewrite elem_of_permutations2. split.
  - intros (i & j & Hne & Hi & Hj). split_and!.
    + by eapply list_elem_of_lookup_2.
    + by eapply list_elem_of_lookup_2.
    + intros ->. apply Hne. by eapply NoDup_lookup.
  - intros (Ha & Hb & Hne).
    apply list_elem_of_lookup_1 in Ha as [i Hi].
    apply list_elem_of_lookup_1 in Hb as [j Hj].
    exists i, j. split_and!; [|done..]. intros ->. congruence.
Qed.

Lemma add_separators_inner (a b : string) separators combos word :
  word ∈ foldl (fun combos sep => combos ∪ {[ a +:+ sep +:+ b ]}) combos separators
  <-> word ∈ combos \/ exists sep, sep ∈ separators /\ word = a +:+ sep +:+ b.
Proof.
  revert combos.
  induction separators as [|sep separators IH]; intros combos; simpl.
  - split; [by left|]. intros [?|(s & Hs & _)]; [done|]. by apply elem_of_nil in Hs.
  - rewrite IH. split.
    + intros [Hw|(s & Hs & ->)].
      * apply elem_of_union in Hw as [Hw|Hw%elem_of_singleton]; [by left|].
        right. exists sep. split; [left|done].
      * right. exists s. split; [by right|done].
    + intros [Hw|(s & Hs & ->)]; [left; union_member|].
      apply elem_of_cons in Hs as [->|Hs]; [left; union_member|].
      right. by exists s.
Qed.

Lemma add_separators_from (pairs : list (string * string)) separators combos word :
  word ∈ foldl (fun combos '(a, b) =>
                  foldl (fun combos sep => combos ∪ {[ a +:+ sep +:+ b ]})
                        combos separators)
               combos pairs
  <-> word ∈ combos
      \/ exists a b sep, (a, b) ∈ pairs /\ sep ∈ separators
           /\ word = a +:+ sep +:+ b.
Proof.
  revert combos.
  induction pairs as [|[a b] pairs IH]; intros combos; simpl.
  - split; [by left|]. intros [?|(a & b & s & Hp & _)]; [done|].
    by apply elem_of_nil in Hp.
  - rewrite IH, add_separators_inner. split.
    + intros [[Hw|(s & Hs & ->)]|(a' & b' & s & Hp & Hs & ->)].
      * by left.
      * right. exists a, b, s. split_and!; [left|done..].
      * right. exists a', b', s. split_and!; [by right|done..].
    + intros [Hw|(a' & b' & s & Hp & Hs & ->)]; [by left; left|].
      apply elem_of_cons in Hp as [[= -> ->]|Hp].
      * left. right. by exists s.
      * right. by exists a', b', s.
Qed.

(** The members of [add_separators tokens separators]. *)
Lemma elem_of_add_separators tokens separators word :
  word ∈ add_separators tokens separators
  <-> exists a b sep, (a, b) ∈ permutations2 tokens /\ sep ∈ separators
        /\ word = a +:+ sep +:+ b.
Proof.
  unfold add_separators. rewrite add_separators_from.
  split; [intros [Hw|?]; [|done]|by right].
  by apply elem_of_empty in Hw.
Qed.

(** Both sets depend on which tokens are listed, not on their order. *)
Lemma append_years_order tokens tokens' years :
  tokens ≡ₚ tokens' -> append_years tokens years = append_years tokens' years.
Proof.
  intros Hp. apply set_eq. intros word. rewrite !elem_of_append_years.
  by setoid_rewrite Hp.
Qed.

Lemma add_separators_order tokens tokens' separators :
  NoDup tokens -> tokens ≡ₚ tokens' ->
  add_separators tokens separators = add_separators tokens' separators.
Proof.
  intros Hnd Hp. apply set_eq. intros word. rewrite !elem_of_add_separators.
  assert (NoDup tokens') as Hnd' by by rewrite <- Hp.
  split; intros (a & b & sep & Hab & Hs & ->); exists a, b, sep;
    (split_and!; [|done..]).
  - apply elem_of_permutations2_NoDup in Hab; [|done].
    apply elem_of_permutations2_NoDup; [done|]. by rewrite <- Hp.
  - apply elem_of_permutations2_NoDup in Hab; [|done].
    apply elem_of_permutations2_NoDup; [done|]. by rewrite Hp.
Qed.

End Combos.



(* ===================================================================== *)
(** ** The wordlist: size cap and distinct entries *)

Section Fromkeys.

Implicit Types (seen l : list string).

Lemma elem_of_fromkeys_from seen l (x : string) :
  x ∈ PyStr.fromkeys_from seen l <-> x ∈ l /\ x ∉ seen.
Proof.
  revert seen.
  induction l as [|y l IH]; intros seen; simpl.
  - split; [intros H; by apply elem_of_nil in H|intros [H _]; by apply elem_of_nil in H].
  - destruct (bool_decide_reflect (y ∈ seen)) as [Hin|Hout].
    + rewrite IH, elem_of_cons. split; [intros [? ?]; auto|].
      intros [[->|?] ?]; [done|auto].
    + rewrite !elem_of_cons, IH, elem_of_cons. split.
      * intros [->|[? Hx]]; [auto|]. split; [auto|]. intros ?. apply Hx. auto.
      * intros [[->|?] Hx]; [auto|].
        destruct (decide (x = y)) as [->|?]; [auto|].
        right. split; [done|]. intros [?|?]; [done|]. by apply Hx.
Qed.

Lemma fromkeys_from_NoDup seen l : NoDup (PyStr.fromkeys_from seen l).
Proof.
  revert seen.
  induction l as [|y l IH]; intros seen; simpl; [constructor|].
  destruct (bool_decide_reflect (y ∈ seen)); [apply IH|].
  constructor; [|apply IH].
  rewrite elem_of_fromkeys_from. intros [_ Hy]. apply Hy. left.
Qed.

Lemma fromkeys_from_id seen l :
  NoDup l -> (forall x, x ∈ l -> x ∉ seen) -> PyStr.fromkeys_from seen l = l.
Proof.
  revert seen.
  induction l as [|y l IH]; intros seen Hnd Hout; simpl; [done|].
  apply NoDup_cons in Hnd as [Hy Hnd].
  destruct (bool_decide_reflect (y ∈ seen)) as [Hin|_].
  - exfalso. by apply (Hout y); [left|].
  - f_equal. apply IH; [done|]. intros x Hx [->|?]%elem_of_cons; [done|].
    by apply (Hout x); [right|].
Qed.

(** [dict.fromkeys] leaves no repetition, and changes nothing when there
    is none. *)
Lemma dict_fromkeys_NoDup l : NoDup (PyStr.dict_fromkeys l).
Proof. apply fromkeys_from_NoDup. Qed.

Lemma dict_fromkeys_id l : NoDup l -> PyStr.dict_fromkeys l = l.
Proof.
  intros Hnd. apply fromkeys_from_id; [done|].
  intros x _ Hx. by apply elem_of_nil in Hx.
Qed.

Lemma slice_to_sublist {A} (l : list A) (k : Z) : PyStr.slice_to l k `sublist_of` l.
Proof. unfold PyStr.slice_to. case_match; apply sublist_take. Qed.

Lemma slice_to_length {A} (l : list A) (k : Z) :
  (0 <= k)%Z -> (Z.of_nat (length (PyStr.slice_to l k)) <= k)%Z.
Proof.
  intros Hk. unfold PyStr.slice_to.
  destruct (Z.leb_spec 0 k); [|lia].
  rewrite length_take. lia.
Qed.

End Fromkeys.

(** C1, as the code has it: whatever the inputs, the years, the
    separators, the leetspeak setting and the iteration order of sets,
    the list [build_wordlist] returns has no repeated entry, and for
    every [max_size] that is not negative it has at most [max_size]
    entries. *)
Theorem build_wordlist_capped_distinct
    (set_iter : gset string -> list string)
    (lemmatizer : option (string -> option string))
    (user_inputs : list string) (years : list Z) (separators : list string)
    (include_leet : bool) (max_size : Z) :
  let wordlist :=
    build_wordlist set_iter lemmatizer user_inputs years separators
      include_leet max_size in
  NoDup wordlist
  /\ ((0 <= max_size)%Z -> (Z.of_nat (length wordlist) <= max_size)%Z).
Proof.
  unfold build_wordlist. cbv zeta.
  set (wordlist := PyStr.dict_fromkeys _).
  assert (NoDup wordlist) as Hnd by apply dict_fromkeys_NoDup.
  destruct (Z.ltb_spec max_size (Z.of_nat (length wordlist))); split.
  - eapply sublist_NoDup; [exact Hnd|apply slice_to_sublist].
  - apply slice_to_length.
  - exact Hnd.
  - lia.
Qed.

(** The cap at work: the 48 entries built from "Rex" are cut to ten. *)
Lemma build_wordlist_capped_distinct_witness :
  NoDup (build_wordlist elements None ["Rex"] [2024]%Z [""] true 10)
  /\ (Z.of_nat (length (build_wordlist elements None ["Rex"] [2024]%Z [""] true 10))
      <= 10)%Z.
Proof.
  destruct (build_wordlist_capped_distinct elements None ["Rex"] [2024]%Z [""]
              true 10) as [Hnd Hlen].
  split; [exact Hnd|apply Hlen; lia].
Defined.

(** C1 as stated fails for a negative [max_size]: [wordlist[:-1]] drops
    one entry of the 48, and no list has at most -1 entries. *)
Lemma build_wordlist_negative_cap :
  length (build_wordlist elements None ["Rex"] [2024]%Z [""] true (-1)) = 47
  /\ ~ (Z.of_nat (length (build_wordlist elements None ["Rex"] [2024]%Z [""]
                            true (-1))) <= -1)%Z.
Proof. split; [vm_compute; reflexivity|lia]. Qed.

(* ===================================================================== *)
(** ** The wordlist of the "Rex" example *)

Section IterationOrder.

Variable set_iter : gset string -> list string.
Hypothesis set_iter_enumerates : forall X, set_iter X ≡ₚ elements X.

Variable lemmatizer : option (string -> option string).

Lemma set_iter_NoDup (X : gset string) : NoDup (set_iter X).
Proof. rewrite set_iter_enumerates. apply NoDup_elements. Qed.

Lemma elem_of_set_iter (X : gset string) (x : string) : x ∈ set_iter X <-> x ∈ X.
Proof. rewrite set_iter_enumerates. apply elem_of_elements. Qed.

Lemma set_iter_length (X : gset string) : length (set_iter X) = size X.
Proof. by rewrite set_iter_enumerates. Qed.

(** The set of words does not depend on the iteration order. *)
Lemma wordlist_set_order user_inputs years separators include_leet :
  wordlist_set set_iter lemmatizer user_inputs years separators include_leet
  = wordlist_set elements lemmatizer user_inputs years separators include_leet.
Proof.
  unfold wordlist_set. cbv zeta.
  set (expanded := expand_tokens include_leet _).
  rewrite (add_separators_order (set_iter expanded) (elements expanded));
    [|apply set_iter_NoDup|apply set_iter_enumerates].
  apply append_years_order, set_iter_enumerates.
Qed.

(** Below the cap the wordlist is the set of words, listed. *)
Lemma build_wordlist_below_cap user_inputs years separators include_leet max_size :
  (Z.of_nat (size (wordlist_set elements lemmatizer user_inputs years separators
                     include_leet)) <= max_size)%Z ->
  build_wordlist set_iter lemmatizer user_inputs years separators include_leet
    max_size
  = set_iter (wordlist_set elements lemmatizer user_inputs years separators
                include_leet).
Proof.
  intros Hsize. unfold build_wordlist. cbv zeta.
  rewrite wordlist_set_order, dict_fromkeys_id by apply set_iter_NoDup.
  rewrite set_iter_length.
  destruct (Z.ltb_spec max_size (Z.of_nat (size (wordlist_set elements lemmatizer
              user_inputs years separators include_leet)))); [lia|done].
Qed.

End IterationOrder.

(** The set of words built from "Rex" when [tokenize_inputs] yields the
    one token "Rex". *)
Lemma wordlist_set_Rex lemmatizer :
  tokenize_inputs lemmatizer ["Rex"] = ["Rex"] ->
  wordlist_set elements lemmatizer ["Rex"] [2024]%Z [""] true
  = wordlist_set elements None ["Rex"] [2024]%Z [""] true.
Proof. intros Htok. unfold wordlist_set. by rewrite Htok. Qed.

(** C6, as the code has it: for inputs ["Rex"], years [2024], the empty
    separator and leetspeak on, the wordlist holds "rex2024", "REX2024",
    "Rex2024" and the leetspeak variant "R3x2024"; the substitution is
    made in the token as typed, so "r3x2024" is not in it. This holds
    for every iteration order of sets and every lemmatizer that leaves
    "Rex" as it is (or none). *)
Theorem build_wordlist_Rex
    (set_iter : gset string -> list string)
    (lemmatizer : option (string -> option string)) :
  (forall X, set_iter X ≡ₚ elements X) ->
  tokenize_inputs lemmatizer ["Rex"] = ["Rex"] ->
  let wordlist :=
    build_wordlist set_iter lemmatizer ["Rex"] [2024]%Z [""] true
      default_max_size in
  "rex2024" ∈ wordlist /\ "REX2024" ∈ wordlist /\ "Rex2024" ∈ wordlist
  /\ "R3x2024" ∈ wordlist /\ "r3x2024" ∉ wordlist.
Proof.
  intros Horder Htok. cbv zeta.
  rewrite build_wordlist_below_cap by
    (try done; rewrite wordlist_set_Rex by done; vm_compute; discriminate).
  rewrite !elem_of_set_iter by done.
  rewrite wordlist_set_Rex by done.
  split_and!; apply (bool_decide_unpack _); vm_compute; exact I.
Qed.

Lemma build_wordlist_Rex_witness :
  "rex2024" ∈ build_wordlist elements None ["Rex"] [2024]%Z [""] true 50000
  /\ "R3x2024" ∈ build_wordlist elements None ["Rex"] [2024]%Z [""] true 50000.
Proof.
  destruct (build_wordlist_Rex elements None) as (H1 & _ & _ & H4 & _).
  - intros X. reflexivity.
  - reflexivity.
  - split; [exact H1|exact H4].
Defined.

(** C6 as stated fails on its example of a leetspeak variant. *)
Lemma build_wordlist_Rex_no_lowercase_leet :
  "r3x2024" ∉ build_wordlist elements None ["Rex"] [2024]%Z [""] true 50000.
Proof. apply (bool_decide_unpack _). vm_compute. exact I. Qed.

(* ===================================================================== *)
(** ** Year-range parsing *)

Section Sorting.

Lemma StronglySorted_filter {A} (R : relation A) (P : A -> Prop)
    `{forall x, Decision (P x)} (l : list A) :
  StronglySorted R l -> StronglySorted R (filter P l).
Proof.
  induction 1 as [|x l Hl IH Hx]; [constructor|].
  rewrite filter_cons. case_decide; [|done].
  constructor; [done|].
  apply Forall_forall. intros y Hy%list_elem_of_filter.
  rewrite Forall_forall in Hx. apply Hx, Hy.
Qed.

Lemma filter_none {A} (P : A -> Prop) `{forall x, Decision (P x)} (l : list A) :
  Forall (fun x => ~ P x) l -> filter P l = [].
Proof.
  induction 1 as [|x l Hx Hl IH]; [done|].
  rewrite filter_cons. by case_decide.
Qed.

Lemma StronglySorted_lt_le (l : list Z) :
  StronglySorted Z.lt l -> StronglySorted Z.le l.
Proof.
  induction 1 as [|x l Hl IH Hx]; constructor; [done|].
  eapply Forall_impl; [exact Hx|]. intros y Hy. simpl in Hy. lia.
Qed.

Lemma StronglySorted_lt_NoDup (l : list Z) : StronglySorted Z.lt l -> NoDup l.
Proof.
  induction 1 as [|x l Hl IH Hx]; constructor; [|done].
  intros Hin. rewrite Forall_forall in Hx. specialize (Hx x Hin). lia.
Qed.

Lemma sorted_set_Permutation (l : list Z) :
  NoDup l -> sorted_set l ≡ₚ l.
Proof.
  intros Hnd. unfold sorted_set.
  rewrite merge_sort_Permutation. by apply elements_list_to_set.
Qed.

Lemma elem_of_sorted_set (l : list Z) (y : Z) : y ∈ sorted_set l <-> y ∈ l.
Proof.
  unfold sorted_set.
  by rewrite merge_sort_Permutation, elem_of_elements, elem_of_list_to_set.
Qed.

Lemma sorted_set_NoDup (l : list Z) : NoDup (sorted_set l).
Proof.
  unfold sorted_set. rewrite merge_sort_Permutation. apply NoDup_elements.
Qed.

Lemma sorted_set_StronglySorted (l : list Z) : StronglySorted Z.le (sorted_set l).
Proof. apply StronglySorted_merge_sort; apply _. Qed.

(** [sorted(set(l))] is [l] itself when [l] is strictly increasing. *)
Lemma sorted_set_increasing (l : list Z) :
  StronglySorted Z.lt l -> sorted_set l = l.
Proof.
  intros Hl. apply (StronglySorted_unique Z.le).
  - apply sorted_set_StronglySorted.
  - by apply StronglySorted_lt_le.
  - by apply sorted_set_Permutation, StronglySorted_lt_NoDup.
Qed.

Lemma default_window_increasing (current_year : Z) :
  StronglySorted Z.lt (default_window current_year).
Proof.
  unfold default_window.
  repeat (constructor; [|repeat (constructor; [lia|]); constructor]).
  constructor.
Qed.

End Sorting.

Section ParseYears.

Implicit Types (part years_arg start : string) (years : list Z).
Implicit Types (current_year : Z).

Lemma contains_append (sep : ascii) (start end_ : string) :
  PyStr.contains sep (start +:+ String sep end_) = true.
Proof.
  induction start as [|c start IH]; simpl.
  - by rewrite Ascii.eqb_refl.
  - rewrite IH. apply orb_true_r.
Qed.

(** Where the separator occurs, [split(sep, 1)] yields two pieces, the
    first without separator. *)
Lemma split_once_contains (sep : ascii) (s : string) :
  PyStr.contains sep s = true ->
  exists start end_,
    PyStr.split_once sep s = [start; end_]
    /\ s = start +:+ String sep end_
    /\ PyStr.contains sep start = false.
Proof.
  induction s as [|c s IH]; simpl; [done|].
  destruct (Ascii.eqb_spec c sep) as [->|Hne]; simpl.
  - intros _. by exists EmptyString, s.
  - intros (start & end_ & -> & -> & Hstart)%IH.
    exists (String c start), end_. split_and!; [done..|].
    simpl. rewrite Hstart. by destruct (Ascii.eqb_spec c sep).
Qed.

Lemma split_once_first (sep : ascii) start (end_ : string) :
  PyStr.contains sep start = false ->
  PyStr.split_once sep (start +:+ String sep end_) = [start; end_].
Proof.
  induction start as [|c start IH]; simpl.
  - intros _. by rewrite Ascii.eqb_refl.
  - intros [Hc Hrest]%orb_false_iff. rewrite Hc. by rewrite IH.
Qed.

(** The only exception [int] raises is the one the loop catches. *)
Lemma int_raises_ValueError (s : string) (e : exn) :
  PyStr.int s = Raise e -> e = ValueError.
Proof.
  unfold PyStr.int. cbv zeta.
  match goal with
  | |- match ?numeral with _ => _ end = _ -> _ => destruct numeral
  end; [|congruence].
  destruct (_ <? _)%nat; congruence.
Qed.

Lemma int_cases (s : string) :
  (exists n, PyStr.int s = Ok n) \/ PyStr.int s = Raise ValueError.
Proof.
  destruct (PyStr.int s) as [n|e] eqn:Hint; [eauto|].
  right. by rewrite (int_raises_ValueError s e).
Qed.

Lemma extend_range_cases years (a b : Z) :
  PyStr.extend_range years a b = Ok (years ++ PyStr.range a b)
  \/ PyStr.extend_range years a b = Raise OverflowError.
Proof. unfold PyStr.extend_range. case_match; auto. Qed.

(** What an entry does to the collected years: it appends its own. *)
Lemma parse_years_entry_frame years part :
  parse_years_entry years part
  = ys ← entry_years part; Ok (years ++ ys).
Proof.
  unfold entry_years, parse_years_entry.
  destruct (PyStr.is_empty (PyStr.strip part)); [simpl; by rewrite app_nil_r|].
  destruct (PyStr.contains "-" (PyStr.strip part)) eqn:Hdash.
  - apply split_once_contains in Hdash as (start & end_ & -> & _ & _).
    destruct (int_cases start) as [[a ->]| ->],
             (int_cases end_) as [[b ->]| ->];
      simpl; rewrite ?app_nil_r; try done.
    unfold PyStr.extend_range. by case_match.
  - destruct (int_cases (PyStr.strip part)) as [[y ->]| ->];
      simpl; by rewrite ?app_nil_r.
Qed.

(** An entry the loop does not read adds nothing, and raises nothing. *)
Lemma entry_years_skipped part :
  ~ year_entry (PyStr.strip part) -> entry_years part = Ok [].
Proof.
  intros Hbad. unfold entry_years, parse_years_entry.
  destruct (PyStr.is_empty (PyStr.strip part)); [done|].
  destruct (PyStr.contains "-" (PyStr.strip part)) eqn:Hdash.
  - apply split_once_contains in Hdash as (start & end_ & -> & Hpart & Hstart).
    destruct (int_cases start) as [[a Ha]|Ha],
             (int_cases end_) as [[b Hb]|Hb]; rewrite Ha, Hb; simpl; try done.
    exfalso. apply Hbad. right. by exists start, end_, a, b.
  - destruct (int_cases (PyStr.strip part)) as [[y Hy]|Hy]; rewrite Hy;
      simpl; try done.
    exfalso. apply Hbad. left. split; [done|]. by exists y.
Qed.

(** The only exception that leaves an entry is the one of a range too
    long for a list. *)
Lemma entry_years_raises part (e : exn) :
  entry_years part = Raise e -> e = OverflowError.
Proof.
  unfold entry_years, parse_years_entry.
  destruct (PyStr.is_empty (PyStr.strip part)); [done|].
  destruct (PyStr.contains "-" (PyStr.strip part)) eqn:Hdash.
  - apply split_once_contains in Hdash as (start & end_ & -> & _ & _).
    destruct (int_cases start) as [[a ->]| ->],
             (int_cases end_) as [[b ->]| ->]; simpl; try done.
    destruct (extend_range_cases [] a (b + 1)) as [-> | ->]; simpl; congruence.
  - by destruct (int_cases (PyStr.strip part)) as [[y ->]| ->].
Qed.

Lemma parse_years_loop_cons years part (rest : list string) :
  parse_years_loop years (part :: rest)
  = ys ← entry_years part; parse_years_loop (years ++ ys) rest.
Proof.
  cbn [parse_years_loop]. rewrite parse_years_entry_frame.
  by destruct (entry_years part).
Qed.

Lemma parse_years_loop_raises years (parts : list string) (e : exn) :
  parse_years_loop years parts = Raise e -> e = OverflowError.
Proof.
  revert years.
  induction parts as [|part parts IH]; intros years; [done|].
  rewrite parse_years_loop_cons.
  destruct (entry_years part) as [ys|e'] eqn:Hentry; simpl.
  - apply IH.
  - intros [= <-]. by apply (entry_years_raises part).
Qed.

Lemma parse_years_loop_skips years (parts : list string) :
  Forall (fun part => entry_years part = Ok []) parts ->
  parse_years_loop years parts = Ok years.
Proof.
  induction 1 as [|part parts Hpart _ IH]; [done|].
  rewrite parse_years_loop_cons, Hpart. simpl. by rewrite app_nil_r.
Qed.

(** When the loop returns, it has collected the years it started from
    and those of every entry, and nothing else. *)
Lemma parse_years_loop_collects years (parts : list string) (out : list Z) :
  parse_years_loop years parts = Ok out ->
  forall y,
    y ∈ out
    <-> y ∈ years
        \/ exists part ys,
             part ∈ parts /\ entry_years part = Ok ys /\ y ∈ ys.
Proof.
  revert years.
  induction parts as [|part parts IH]; intros years.
  - intros [= <-] y. split; [by left|].
    intros [?|(part & ys & Hpart & _)]; [done|]. by apply elem_of_nil in Hpart.
  - rewrite parse_years_loop_cons.
    destruct (entry_years part) as [ys|e] eqn:Hentry; [|done]. simpl.
    intros Hloop y. rewrite (IH _ Hloop y), elem_of_app. split.
    + intros [[?|Hy]|(p & zs & Hp & Hzs & Hy)].
      * by left.
      * right. exists part, ys. split_and!; [left|done..].
      * right. exists p, zs. split_and!; [by right|done..].
    + intros [?|(p & zs & Hp & Hzs & Hy)]; [by left; left|].
      apply elem_of_cons in Hp as [->|Hp].
      * left. right. congruence.
      * right. by exists p, zs.
Qed.

Lemma parse_years_unfold current_year years_arg :
  parse_years current_year years_arg
  = collected ← collected_years years_arg;
    Ok (sorted_set (filter year_in_bounds
          match collected with
          | [] => default_window current_year
          | _ => collected
          end)).
Proof. reflexivity. Qed.

Lemma parse_years_returns current_year years_arg years :
  parse_years current_year years_arg = Ok years ->
  exists collected,
    collected_years years_arg = Ok collected
    /\ years = sorted_set (filter year_in_bounds
                  match collected with
                  | [] => default_window current_year
                  | _ => collected
                  end).
Proof.
  rewrite parse_years_unfold.
  destruct (collected_years years_arg) as [collected|e]; [|done].
  simpl. intros [= <-]. by exists collected.
Qed.

Lemma collected_years_nothing_parses years_arg :
  (forall part, part ∈ PyStr.split "," years_arg ->
                ~ year_entry (PyStr.strip part)) ->
  collected_years years_arg = Ok [].
Proof.
  intros Hbad. apply parse_years_loop_skips, Forall_forall.
  intros part Hpart. by apply entry_years_skipped, Hbad.
Qed.

Lemma parse_years_default current_year years_arg :
  collected_years years_arg = Ok [] ->
  parse_years current_year years_arg
  = Ok (filter year_in_bounds (default_window current_year)).
Proof.
  intros Hnone. rewrite parse_years_unfold, Hnone. simpl. f_equal.
  apply sorted_set_increasing, StronglySorted_filter, default_window_increasing.
Qed.

Lemma default_window_in_bounds current_year :
  (1901 <= current_year <= 2099)%Z ->
  filter year_in_bounds (default_window current_year) = default_window current_year.
Proof.
  intros Hcy. unfold default_window.
  rewrite !filter_cons, filter_nil. unfold year_in_bounds.
  repeat case_decide; (done || lia).
Qed.

End ParseYears.

Lemma year_range_contains (part : string) :
  year_range part -> PyStr.contains "-" part = true.
Proof. intros (start & end_ & a & b & -> & _). apply contains_append. Qed.

Lemma not_year_entry (part : string) :
  PyStr.contains "-" part = false -> PyStr.int part = Raise ValueError ->
  ~ year_entry part.
Proof.
  intros Hdash Hint [[_ [y Hy]]|Hrange]; [congruence|].
  apply year_range_contains in Hrange. congruence.
Qed.

(** An entry that starts with a hyphen is not read: the text before the
    first hyphen is empty. *)
Lemma not_year_entry_leading_hyphen (rest : string) :
  ~ year_entry (String "-" rest).
Proof.
  intros [[Hdash _]|(start & end_ & a & b & Heq & Hstart & Ha & _)];
    [done|].
  destruct start as [|c start]; [done|].
  simpl in Heq. injection Heq as <- _. done.
Qed.

(** C2, as the code has it: "1990-1992,2024" parses to 1990, 1991, 1992
    and 2024; the empty string parses to the three years around the
    current one that lie in [1900, 2100], which is the whole window
    when the current year is between 1901 and 2099. *)
Theorem parse_years_examples :
  (forall current_year,
     parse_years current_year "1990-1992,2024" = Ok [1990; 1991; 1992; 2024]%Z)
  /\ (forall current_year,
        parse_years current_year ""
        = Ok (filter year_in_bounds (default_window current_year)))
  /\ (forall current_year, (1901 <= current_year <= 2099)%Z ->
        parse_years current_year ""
        = Ok [current_year - 1; current_year; current_year + 1]%Z).
Proof.
  split_and!.
  - intros current_year. vm_compute. reflexivity.
  - intros current_year. by apply parse_years_default.
  - intros current_year Hcy.
    rewrite parse_years_default by done.
    by rewrite default_window_in_bounds.
Qed.

Lemma parse_years_examples_witness :
  parse_years 2026 "" = Ok [2026 - 1; 2026; 2026 + 1]%Z.
Proof.
  destruct parse_years_examples as (_ & _ & Hwindow).
  apply (Hwindow 2026%Z). lia.
Defined.

(** C2 as stated fails when the clock reads 2100: the window is cut at
    the upper bound. *)
Lemma parse_years_blank_at_2100 :
  parse_years 2100 "" = Ok [2099; 2100]%Z
  /\ parse_years 2100 "" <> Ok [2100 - 1; 2100; 2100 + 1]%Z.
Proof. split; [vm_compute; reflexivity|vm_compute; discriminate]. Qed.

(** C3, as the code has it: an entry the loop does not read as a single
    integer (no hyphen, accepted by [int]) or as an integer range (cut
    at its first hyphen, both sides accepted by [int]), a negative
    number such as "-5" among them, raises nothing and leaves the
    collected years as they are; no [ValueError] leaves [parse_years].
    Whenever [parse_years] returns, the list holds only years of
    [1900, 2100] and none twice. When no entry is read, it returns the
    three-year window around the current year cut to [1900, 2100], the
    whole window when the current year is between 1901 and 2099.
    [parse_years] does not always return: a range of more than
    [sys.maxsize] years raises an [OverflowError], which is not
    caught. *)
Theorem parse_years_contract (current_year : Z) (years_arg : string) :
  (forall collected part,
     ~ year_entry (PyStr.strip part) ->
     parse_years_entry collected part = Ok collected)
  /\ parse_years current_year years_arg <> Raise ValueError
  /\ (forall years,
        parse_years current_year years_arg = Ok years ->
        Forall year_in_bounds years /\ NoDup years)
  /\ ((forall part, part ∈ PyStr.split "," years_arg ->
                    ~ year_entry (PyStr.strip part)) ->
      parse_years current_year years_arg
      = Ok (filter year_in_bounds (default_window current_year))
      /\ ((1901 <= current_year <= 2099)%Z ->
          parse_years current_year years_arg
          = Ok (default_window current_year))).
Proof.
  split_and!.
  - intros collected part Hbad.
    rewrite parse_years_entry_frame, entry_years_skipped by done.
    simpl. by rewrite app_nil_r.
  - rewrite parse_years_unfold. unfold collected_years.
    destruct (parse_years_loop [] (PyStr.split "," years_arg)) as [l|e] eqn:Hloop;
      [done|].
    simpl. intros [= ->]. by apply parse_years_loop_raises in Hloop.
  - intros years (collected & _ & ->)%parse_years_returns. split.
    + apply Forall_forall. intros y Hy.
      rewrite elem_of_sorted_set in Hy.
      by apply list_elem_of_filter in Hy as [Hy _].
    + apply sorted_set_NoDup.
  - intros Hbad.
    pose proof (collected_years_nothing_parses years_arg Hbad) as Hnone.
    rewrite (parse_years_default current_year years_arg Hnone).
    split; [done|]. intros Hcy. by rewrite default_window_in_bounds.
Qed.

Lemma parse_years_contract_witness :
  parse_years 2026 "abc, ,-5,20x4" = Ok [2025; 2026; 2027]%Z.
Proof.
  destruct (parse_years_contract 2026 "abc, ,-5,20x4")
    as (_ & _ & _ & Hwindow).
  assert (forall part, part ∈ PyStr.split "," "abc, ,-5,20x4" ->
                       ~ year_entry (PyStr.strip part)) as Hbad.
  { intros part Hpart.
    change (part ∈ ["abc"; " "; "-5"; "20x4"]) in Hpart.
    apply elem_of_cons in Hpart as [->|Hpart]; [by apply not_year_entry|].
    apply elem_of_cons in Hpart as [->|Hpart]; [by apply not_year_entry|].
    apply elem_of_cons in Hpart as [->|Hpart];
      [apply not_year_entry_leading_hyphen|].
    apply elem_of_cons in Hpart as [->|Hpart]; [by apply not_year_entry|].
    by apply elem_of_nil in Hpart. }
  destruct (Hwindow Hbad) as [_ Hwhole].
  rewrite Hwhole by lia. reflexivity.
Defined.

(** C3 as stated fails when the clock reads 2100 and no entry parses:
    the result is not the whole window. *)
Lemma parse_years_nothing_parses_at_2100 :
  (forall part, part ∈ PyStr.split "," "abc" -> ~ year_entry (PyStr.strip part))
  /\ parse_years 2100 "abc" = Ok [2099; 2100]%Z
  /\ parse_years 2100 "abc" <> Ok (default_window 2100).
Proof.
  split_and!.
  - intros part Hpart%list_elem_of_singleton. subst part.
    by apply not_year_entry.
  - vm_compute. reflexivity.
  - vm_compute. discriminate.
Qed.

(* ===================================================================== *)
(** ** Strength analysis: the fallback heuristic *)

Section Reals.

Open Scope R_scope.

Lemma ln_2_pos : 0 < ln 2.
Proof. pose proof ln_lt_2. lra. Qed.

Lemma div_le_1 (x y : R) : 0 < y -> x <= y -> x / y <= 1.
Proof.
  intros Hy Hxy. apply (Rmult_le_reg_r y); [done|].
  unfold Rdiv. rewrite Rmult_assoc, Rinv_l by lra. lra.
Qed.

Lemma div_nonpos (x y : R) : 0 < y -> x <= 0 -> x / y <= 0.
Proof.
  intros Hy Hx. apply (Rmult_le_reg_r y); [done|].
  unfold Rdiv. rewrite Rmult_assoc, Rinv_l by lra. lra.
Qed.

Lemma div_nonneg (x y : R) : 0 < y -> 0 <= x -> 0 <= x / y.
Proof.
  intros Hy Hx. apply (Rmult_le_reg_r y); [done|].
  unfold Rdiv. rewrite Rmult_assoc, Rinv_l by lra. lra.
Qed.

Lemma ln_le_mono (x y : R) : 0 < x -> x <= y -> ln x <= ln y.
Proof.
  intros Hx [Hlt| ->]; [|lra].
  left. by apply ln_increasing.
Qed.

Lemma ln_nonneg (x : R) : 1 <= x -> 0 <= ln x.
Proof. intros Hx. rewrite <- ln_1. apply ln_le_mono; lra. Qed.

Lemma ln_nonpos (x : R) : 0 < x -> x <= 1 -> ln x <= 0.
Proof. intros Hx Hx1. rewrite <- ln_1. by apply ln_le_mono. Qed.

Lemma Int_part_IZR (z : Z) : Int_part (IZR z) = z.
Proof. symmetry. apply Int_part_spec. lra. Qed.

Lemma Int_part_nonneg (x : R) : 0 <= x -> (0 <= Int_part x)%Z.
Proof.
  intros Hx. destruct (base_Int_part x) as [_ Hlow].
  assert (IZR (-1) < IZR (Int_part x)) as Hlt by lra.
  apply lt_IZR in Hlt. lia.
Qed.

(** [int] undoes the conversion of an integer to a float. *)
Lemma int_of_float_IZR (z : Z) : int_of_float (IZR z) = z.
Proof.
  unfold int_of_float. destruct (Rle_dec 0 (IZR z)).
  - apply Int_part_IZR.
  - rewrite <- opp_IZR, Int_part_IZR. lia.
Qed.

Lemma sum_from_nonpos (terms : list R) (acc : R) :
  acc <= 0 -> Forall (fun t => t <= 0) terms -> foldl Rplus acc terms <= 0.
Proof.
  intros Hacc Hterms. revert acc Hacc.
  induction Hterms as [|t terms Ht _ IH]; intros acc Hacc; simpl; [done|].
  apply IH. lra.
Qed.

Lemma sum_nonpos (terms : list R) :
  Forall (fun t => t <= 0) terms -> sum terms <= 0.
Proof. apply sum_from_nonpos. lra. Qed.

Lemma term_value_nonpos (length : R) (c : nat) :
  0 < INR c <= length -> term_value length c <= 0.
Proof.
  intros [Hc Hle]. unfold term_value.
  assert (0 < INR c / length <= 1) as [Hp Hp1].
  { split; [apply Rdiv_lt_0_compat; lra|apply div_le_1; lra]. }
  pose proof (ln_nonpos _ Hp Hp1). pose proof ln_2_pos.
  assert (ln (INR c / length) / ln 2 <= 0) by (apply div_nonpos; lra).
  nra.
Qed.

(** A count that is positive and at most the length raises nothing. *)
Lemma entropy_term_ok (length : R) (c : nat) :
  0 < INR c <= length -> entropy_term length c = Ok (term_value length c).
Proof.
  intros [Hc Hle]. unfold entropy_term, true_div, math_log2.
  destruct (Req_dec_T length 0); [lra|]. simpl.
  destruct (Rlt_dec 0 (INR c / length)) as [|Hneg]; [done|].
  exfalso. apply Hneg. apply Rdiv_lt_0_compat; lra.
Qed.

End Reals.

Section Entropy.

Implicit Types (password : string) (ch : ascii).

Lemma count_le_length ch password : count ch password <= String.length password.
Proof.
  induction password as [|c rest IH]; simpl; [done|].
  destruct (Ascii.eqb c ch); simpl; lia.
Qed.

Lemma count_pos ch password :
  ch ∈ list_ascii_of_string password -> 1 <= count ch password.
Proof.
  induction password as [|c rest IH]; simpl.
  - intros H. by apply elem_of_nil in H.
  - intros [->|Hin]%elem_of_cons.
    + rewrite Ascii.eqb_refl. lia.
    + specialize (IH Hin). lia.
Qed.

Lemma elem_of_char_set ch password :
  ch ∈ char_set password <-> ch ∈ list_ascii_of_string password.
Proof. unfold char_set. by rewrite elem_of_elements, elem_of_list_to_set. Qed.

Lemma counts_in_range password (c : nat) :
  c ∈ counts password -> 1 <= c <= String.length password.
Proof.
  unfold counts. intros (ch & -> & Hch)%list_elem_of_fmap.
  apply elem_of_char_set in Hch.
  split; [by apply count_pos|apply count_le_length].
Qed.

Lemma counts_real_range password (c : nat) :
  c ∈ counts password -> (0 < INR c <= INR (String.length password))%R.
Proof.
  intros [Hpos Hle]%counts_in_range.
  split; [apply lt_0_INR; lia|by apply le_INR].
Qed.

Lemma mapM_entropy_terms (length : R) (cs : list nat) :
  Forall (fun c => (0 < INR c <= length)%R) cs ->
  mapM (entropy_term length) cs = Ok (map (term_value length) cs).
Proof.
  induction 1 as [|c cs Hc _ IH]; [done|].
  cbn [mapM]. by rewrite entropy_term_ok, IH.
Qed.

(** [shannon_entropy] raises nothing, and this is its value. *)
Lemma shannon_entropy_ok password :
  shannon_entropy password
  = Ok (if PyStr.is_empty password then 0
        else - sum (map (term_value (INR (String.length password)))
                        (counts password))
             * INR (String.length password))%R.
Proof.
  unfold shannon_entropy.
  destruct (PyStr.is_empty password); [done|].
  set (length := INR (String.length password)).
  assert (mapM (fun '(_, c) => entropy_term length c)
               (map (fun ch => (ch, count ch password)) (char_set password))
          = mapM (entropy_term length) (counts password)) as ->.
  { unfold counts. induction (char_set password) as [|ch l IH]; [done|].
    cbn [mapM map]. cbn [mapM map] in IH. by rewrite IH. }
  rewrite mapM_entropy_terms; [done|].
  apply Forall_forall. intros c Hc. by apply counts_real_range.
Qed.

Lemma shannon_entropy_nonneg password (h : R) :
  shannon_entropy password = Ok h -> (0 <= h)%R.
Proof.
  rewrite shannon_entropy_ok. intros [= <-].
  destruct (PyStr.is_empty password); [lra|].
  assert (sum (map (term_value (INR (String.length password)))
                   (counts password)) <= 0)%R as Hsum.
  { apply sum_nonpos, Forall_forall. intros t (c & -> & Hc)%list_elem_of_fmap.
    by apply term_value_nonpos, counts_real_range. }
  pose proof (pos_INR (String.length password)). nra.
Qed.

Lemma or_one_pos (char_space : nat) : 1 <= or_one char_space.
Proof. unfold or_one. destruct (Nat.eqb_spec char_space 0); lia. Qed.

Lemma or_one_mono (k k' : nat) : k <= k' -> or_one k <= or_one k'.
Proof.
  unfold or_one.
  destruct (Nat.eqb_spec k 0), (Nat.eqb_spec k' 0); lia.
Qed.

(** [char_space or 1] keeps [math.log2] inside its domain. *)
Lemma naive_bits_of_ok (char_space len : nat) :
  naive_bits_of char_space len
  = Ok (ln (INR (or_one char_space)) / ln 2 * INR len)%R.
Proof.
  unfold naive_bits_of, math_log2.
  destruct (Rlt_dec 0 (INR (or_one char_space))) as [|Hneg]; [done|].
  exfalso. apply Hneg, lt_0_INR. pose proof (or_one_pos char_space). lia.
Qed.

Lemma naive_bits_of_nonneg (char_space len : nat) :
  (0 <= ln (INR (or_one char_space)) / ln 2 * INR len)%R.
Proof.
  pose proof (or_one_pos char_space) as Hpos.
  apply le_INR in Hpos. rewrite INR_1 in Hpos.
  pose proof (ln_nonneg _ Hpos). pose proof ln_2_pos. pose proof (pos_INR len).
  apply Rmult_le_pos; [|done].
  apply div_nonneg; lra.
Qed.

Lemma naive_bits_of_mono (k k' n n' : nat) :
  k <= k' -> n <= n' ->
  (ln (INR (or_one k)) / ln 2 * INR n
   <= ln (INR (or_one k')) / ln 2 * INR n')%R.
Proof.
  intros Hk Hn.
  pose proof (or_one_pos k) as Hpos. apply le_INR in Hpos. rewrite INR_1 in Hpos.
  pose proof (le_INR _ _ (or_one_mono k k' Hk)) as Hkk.
  pose proof (ln_nonneg _ Hpos) as Hln.
  pose proof (ln_le_mono (INR (or_one k)) (INR (or_one k')) ltac:(lra) Hkk).
  pose proof ln_2_pos. pose proof (pos_INR n). pose proof (le_INR _ _ Hn).
  apply Rmult_le_compat; [apply div_nonneg; lra|done| |done].
  apply Rmult_le_compat_r; [|done].
  left. by apply Rinv_0_lt_compat.
Qed.

Lemma fallback_score_ok password :
  exists s, fallback_score password = Ok s /\ (0 <= s <= 4)%Z.
Proof.
  unfold fallback_score, naive_bits. rewrite naive_bits_of_ok. simpl.
  unfold floor_div. destruct (Req_dec_T 20 0); [lra|]. simpl.
  eexists. split; [done|].
  rewrite int_of_float_IZR.
  pose proof (naive_bits_of_nonneg (length (char_set password))
                (String.length password)) as Hbits.
  assert (0 <= Int_part (ln (INR (or_one (length (char_set password)))) / ln 2
                         * INR (String.length password) / 20))%Z.
  { apply Int_part_nonneg. lra. }
  lia.
Qed.

End Entropy.

(** C4: without [zxcvbn], [analyze_password] raises nothing on any
    password and any user inputs; it returns a result whose score is the
    one of the fallback heuristic and lies between 0 and 4. *)
Theorem analyze_password_fallback (pwd : string) (user_inputs : option (list string)) :
  exists r,
    analyze_password None pwd user_inputs = Ok r
    /\ (0 <= score r <= 4)%Z
    /\ fallback_score pwd = Ok (score r)
    /\ password r = pwd
    /\ shannon_entropy pwd = Ok (entropy_bits r).
Proof.
  destruct (fallback_score_ok pwd) as (s & Hs & Hrange).
  destruct (shannon_entropy pwd) as [h|e] eqn:Hh;
    [|by rewrite shannon_entropy_ok in Hh].
  exists {| password := pwd; score := s;
            crack_time_display := "zxcvbn not installed; using heuristic";
            feedback := "Install zxcvbn for richer analysis";
            entropy_bits := h |}.
  split_and!; simpl; try done; try lia.
  unfold analyze_password. rewrite Hh. simpl. by rewrite Hs.
Qed.

(* ===================================================================== *)
(** ** Strength analysis: entropy, sign and monotonicity *)

Section Logarithms.

Open Scope R_scope.

Lemma ln_quotient (x y : R) : 0 < x -> 0 < y -> ln (x / y) = ln x - ln y.
Proof.
  intros Hx Hy. unfold Rdiv.
  rewrite ln_mult, ln_Rinv; [lra|done|done|by apply Rinv_0_lt_compat].
Qed.

Lemma ln_4 : ln 4 = 2 * ln 2.
Proof. replace 4 with (2 * 2) by lra. rewrite ln_mult; lra. Qed.

Lemma ln_8 : ln 8 = 3 * ln 2.
Proof. replace 8 with (2 * 4) by lra. rewrite ln_mult, ln_4; lra. Qed.

Lemma ln_10 : ln 10 = ln 2 + ln 5.
Proof. replace 10 with (2 * 5) by lra. rewrite ln_mult; lra. Qed.

(** 5^5 = 3125 is below 2^12 = 4096. *)
Lemma ln_5_lt : 5 * ln 5 < 12 * ln 2.
Proof.
  replace 5 with (INR 5) at 1 by (simpl; lra).
  replace 12 with (INR 12) by (simpl; lra).
  rewrite <- !ln_pow by lra.
  apply ln_increasing; simpl; lra.
Qed.

Lemma log2_5_lt : ln 5 / ln 2 < 12 / 5.
Proof.
  pose proof ln_5_lt. pose proof ln_2_pos.
  apply (Rmult_lt_reg_r (ln 2)); [done|].
  unfold Rdiv at 1. rewrite Rmult_assoc, Rinv_l by lra. lra.
Qed.

End Logarithms.

(** Turns the entropy of a given password into an expression in
    [ln 5 / ln 2]. *)
Ltac entropy_value :=
  unfold sum, term_value; cbn [map foldl];
  repeat match goal with
         | |- context [INR ?n] =>
             let r := eval cbv in (Z.of_nat n) in
             replace (INR n) with (IZR r) by (simpl; lra)
         end;
  rewrite !ln_quotient by lra;
  rewrite ?ln_4, ?ln_8, ?ln_10, ?ln_1.

(** C5, as the code has it: the Shannon entropy and the naive bit count
    [log2 (distinct characters) * length] of a password are both
    non-negative; the naive bit count, from which the fallback score is
    taken, does not decrease when the number of distinct characters
    grows at a fixed length, nor when the length grows at a fixed number
    of distinct characters. *)
Theorem fallback_entropy_properties (p q : string) :
  (exists h, shannon_entropy p = Ok h /\ (0 <= h)%R)
  /\ exists bp bq,
       naive_bits p = Ok bp /\ naive_bits q = Ok bq /\ (0 <= bp)%R
       /\ (String.length p = String.length q ->
           length (char_set p) <= length (char_set q) -> (bp <= bq)%R)
       /\ (length (char_set p) = length (char_set q) ->
           String.length p <= String.length q -> (bp <= bq)%R).
Proof.
  split.
  - eexists. split; [apply shannon_entropy_ok|].
    apply (shannon_entropy_nonneg p), shannon_entropy_ok.
  - eexists _, _. split_and!; [apply naive_bits_of_ok..| | |].
    + apply naive_bits_of_nonneg.
    + intros Hlen Hchars. apply naive_bits_of_mono; [done|]. by rewrite Hlen.
    + intros Hchars Hlen. apply naive_bits_of_mono; [|done]. by rewrite Hchars.
Qed.

Lemma fallback_entropy_properties_witness :
  exists bp bq,
    naive_bits "aab" = Ok bp /\ naive_bits "abc" = Ok bq /\ (bp <= bq)%R.
Proof.
  destruct (fallback_entropy_properties "aab" "abc")
    as (_ & bp & bq & Hp & Hq & _ & Hchars & _).
  exists bp, bq. split_and!; [exact Hp|exact Hq|].
  apply Hchars; [reflexivity|].
  replace (length (char_set "aab")) with 2 by (vm_compute; reflexivity).
  replace (length (char_set "abc")) with 3 by (vm_compute; reflexivity).
  lia.
Defined.

(** C5 as stated fails for the Shannon entropy, which depends on how
    often each character occurs: "aaaaaaaabc" has more distinct
    characters than "aaaaabbbbb" at the same length and a lower entropy,
    and "aaaab" is longer than "abab" with as many distinct characters
    and a lower entropy. *)
Lemma shannon_entropy_not_monotone :
  exists h1 h2 h3 h4,
    shannon_entropy "aaaaabbbbb" = Ok h1
    /\ shannon_entropy "aaaaaaaabc" = Ok h2
    /\ String.length "aaaaabbbbb" = String.length "aaaaaaaabc"
    /\ length (char_set "aaaaabbbbb") < length (char_set "aaaaaaaabc")
    /\ (h2 < h1)%R
    /\ shannon_entropy "abab" = Ok h3
    /\ shannon_entropy "aaaab" = Ok h4
    /\ length (char_set "abab") = length (char_set "aaaab")
    /\ String.length "abab" < String.length "aaaab"
    /\ (h4 < h3)%R.
Proof.
  pose proof log2_5_lt as Hlt. pose proof ln_2_pos as Hpos.
  eexists _, _, _, _.
  split_and!; try apply shannon_entropy_ok; try (vm_compute; lia);
    try reflexivity; cbn [PyStr.is_empty].
  - replace (counts "aaaaabbbbb") with [5; 5] by (vm_compute; reflexivity).
    replace (counts "aaaaaaaabc") with [1; 8; 1] by (vm_compute; reflexivity).
    replace (String.length "aaaaabbbbb") with 10 by reflexivity.
    replace (String.length "aaaaaaaabc") with 10 by reflexivity.
    entropy_value.
    replace ((ln 5 - (ln 2 + ln 5)) / ln 2)%R with (-1)%R by (field; lra).
    replace ((0 - (ln 2 + ln 5)) / ln 2)%R with (-1 - ln 5 / ln 2)%R
      by (field; lra).
    replace ((3 * ln 2 - (ln 2 + ln 5)) / ln 2)%R with (2 - ln 5 / ln 2)%R
      by (field; lra).
    lra.
  - replace (counts "abab") with [2; 2] by (vm_compute; reflexivity).
    replace (counts "aaaab") with [4; 1] by (vm_compute; reflexivity).
    replace (String.length "abab") with 4 by reflexivity.
    replace (String.length "aaaab") with 5 by reflexivity.
    entropy_value.
    replace ((ln 2 - 2 * ln 2) / ln 2)%R with (-1)%R by (field; lra).
    replace ((2 * ln 2 - ln 5) / ln 2)%R with (2 - ln 5 / ln 2)%R
      by (field; lra).
    replace ((0 - ln 5) / ln 2)%R with (- (ln 5 / ln 2))%R by (field; lra).
    lra.
Qed.

(* ===================================================================== *)
(** ** Further properties of [parse_years] *)

Section ParseYearsMore.

Implicit Types (part years_arg start : string) (years : list Z).

Lemma StronglySorted_le_lt (l : list Z) :
  StronglySorted Z.le l -> NoDup l -> StronglySorted Z.lt l.
Proof.
  induction 1 as [|x l Hl IH Hx]; intros Hnd; constructor.
  - apply IH. by apply NoDup_cons in Hnd as [_ ?].
  - apply NoDup_cons in Hnd as [Hnotin _].
    rewrite Forall_forall in Hx. apply Forall_forall. intros y Hy.
    specialize (Hx y Hy). simpl in Hx.
    assert (x <> y) by (intros ->; done). lia.
Qed.

Lemma strip_not_empty part (y : Z) :
  PyStr.int (PyStr.strip part) = Ok y -> PyStr.is_empty (PyStr.strip part) = false.
Proof. by destruct (PyStr.strip part). Qed.

(** What an entry that is a single year adds. *)
Lemma entry_years_single part (y : Z) :
  PyStr.contains "-" (PyStr.strip part) = false ->
  PyStr.int (PyStr.strip part) = Ok y ->
  entry_years part = Ok [y].
Proof.
  intros Hdash Hint. unfold entry_years, parse_years_entry.
  by rewrite (strip_not_empty part y), Hdash, Hint.
Qed.

(** What an entry that is a range adds, when the range fits a list. *)
Lemma entry_years_range part start (end_ : string) (a b : Z) :
  PyStr.strip part = start +:+ "-" +:+ end_ ->
  PyStr.contains "-" start = false ->
  PyStr.int start = Ok a -> PyStr.int end_ = Ok b ->
  entry_years part = PyStr.extend_range [] a (b + 1).
Proof.
  intros Hpart Hstart Ha Hb. unfold entry_years, parse_years_entry.
  rewrite Hpart. change (start +:+ "-" +:+ end_) with (start +:+ String "-" end_).
  rewrite contains_append, split_once_first, Ha, Hb by done.
  destruct start; simpl; unfold PyStr.extend_range; by case_match.
Qed.

Lemma elem_of_range (a b y : Z) : y ∈ PyStr.range a b <-> (a <= y < b)%Z.
Proof. unfold PyStr.range. rewrite elem_of_seqZ. lia. Qed.

(** When the loop returns, every entry has returned. *)
Lemma parse_years_loop_entries years (parts : list string) (out : list Z) part :
  parse_years_loop years parts = Ok out -> part ∈ parts ->
  exists ys, entry_years part = Ok ys.
Proof.
  revert years.
  induction parts as [|p parts IH]; intros years Hloop Hpart.
  - by apply elem_of_nil in Hpart.
  - rewrite parse_years_loop_cons in Hloop.
    destruct (entry_years p) as [ys|e] eqn:Hentry; [|done]. simpl in Hloop.
    apply elem_of_cons in Hpart as [->|Hpart]; [by exists ys|].
    by apply (IH _ Hloop).
Qed.

Lemma elem_of_collected_years years_arg (collected ys : list Z) part (y : Z) :
  collected_years years_arg = Ok collected ->
  part ∈ PyStr.split "," years_arg -> entry_years part = Ok ys -> y ∈ ys ->
  y ∈ collected.
Proof.
  intros Hloop Hpart Hentry Hy.
  apply (parse_years_loop_collects _ _ _ Hloop). right. by exists part, ys.
Qed.

(** The members of the result. *)
Lemma elem_of_parse_years current_year (collected : list Z) (y : Z) :
  y ∈ sorted_set (filter year_in_bounds
        match collected with
        | [] => default_window current_year
        | _ => collected
        end)
  <-> year_in_bounds y
      /\ (y ∈ collected
          \/ (collected = [] /\ y ∈ default_window current_year)).
Proof.
  rewrite elem_of_sorted_set, list_elem_of_filter.
  destruct collected as [|y0 years].
  - split; [intros [? ?]; auto|].
    intros [? [Hin|[_ ?]]]; [by apply elem_of_nil in Hin|done].
  - split; [intros [? ?]; auto|].
    intros [? [?|[? _]]]; done.
Qed.

End ParseYearsMore.

(** X1: whenever [parse_years] returns, the list it returns is strictly
    increasing. *)
Theorem parse_years_increasing (current_year : Z) (years_arg : string)
    (years : list Z) :
  parse_years current_year years_arg = Ok years ->
  StronglySorted Z.lt years.
Proof.
  intros (collected & _ & ->)%parse_years_returns.
  apply StronglySorted_le_lt; [apply sorted_set_StronglySorted|apply sorted_set_NoDup].
Qed.

Lemma parse_years_increasing_witness :
  parse_years 2026 "2024, 1990-1992, 2024" = Ok [1990; 1991; 1992; 2024]%Z
  /\ StronglySorted Z.lt [1990; 1991; 1992; 2024]%Z.
Proof.
  split; [reflexivity|].
  apply (parse_years_increasing 2026 "2024, 1990-1992, 2024").
  reflexivity.
Defined.

(** X2: whenever [parse_years] returns, the loop has collected a list of
    years, and a year is in the result exactly when it is in
    [1900, 2100] and either is among the collected years, or nothing was
    collected and it is one of the three years around the current one.
    An entry without hyphen that [int] accepts puts its year among the
    collected ones, and an entry [start-end] whose two sides [int]
    accepts, cut at its first hyphen, puts there every year from [start]
    to [end], both included. *)
Theorem parse_years_members (current_year : Z) (years_arg : string)
    (years : list Z) :
  parse_years current_year years_arg = Ok years ->
  exists collected,
    collected_years years_arg = Ok collected
    /\ (forall y,
          y ∈ years
          <-> year_in_bounds y
              /\ (y ∈ collected
                  \/ (collected = [] /\ y ∈ default_window current_year)))
    /\ (forall part y,
          part ∈ PyStr.split "," years_arg ->
          PyStr.contains "-" (PyStr.strip part) = false ->
          PyStr.int (PyStr.strip part) = Ok y ->
          y ∈ collected /\ (year_in_bounds y -> y ∈ years))
    /\ (forall part start end_ a b y,
          part ∈ PyStr.split "," years_arg ->
          PyStr.strip part = start +:+ "-" +:+ end_ ->
          PyStr.contains "-" start = false ->
          PyStr.int start = Ok a -> PyStr.int end_ = Ok b ->
          (a <= y <= b)%Z ->
          y ∈ collected /\ (year_in_bounds y -> y ∈ years)).
Proof.
  intros (collected & Hloop & ->)%parse_years_returns.
  exists collected. split; [done|].
  assert (forall y, y ∈ collected -> year_in_bounds y ->
            y ∈ sorted_set (filter year_in_bounds
                  match collected with
                  | [] => default_window current_year
                  | _ => collected
                  end)) as Hresult.
  { intros y Hy Hbounds. apply elem_of_parse_years. auto. }
  split_and!.
  - intros y. apply elem_of_parse_years.
  - intros part y Hpart Hdash Hint.
    assert (y ∈ collected) as Hy; [|by auto].
    apply (elem_of_collected_years years_arg collected [y] part);
      [done|done| |by left].
    by apply entry_years_single.
  - intros part start end_ a b y Hpart Hstrip Hstart Ha Hb Hy.
    assert (y ∈ collected) as Hin; [|by auto].
    destruct (parse_years_loop_entries _ _ _ part Hloop Hpart) as [ys Hentry].
    apply (elem_of_collected_years years_arg collected ys part);
      [done|done|done|].
    rewrite (entry_years_range part start end_ a b) in Hentry by done.
    destruct (extend_range_cases [] a (b + 1)) as [Hfits|Hover];
      [|congruence].
    rewrite Hfits in Hentry. injection Hentry as <-.
    apply elem_of_range. lia.
Qed.

Lemma parse_years_members_witness :
  exists collected,
    collected_years "1990 - 1992, 2024" = Ok collected
    /\ 2024%Z ∈ collected /\ 1991%Z ∈ collected.
Proof.
  destruct (parse_years_members 2026 "1990 - 1992, 2024"
              [1990; 1991; 1992; 2024]%Z eq_refl)
    as (collected & Heq & _ & Hsingle & Hrange).
  exists collected. split_and!; [exact Heq| |].
  - apply (Hsingle " 2024"); [|reflexivity|reflexivity].
    change (" 2024" ∈ ["1990 - 1992"; " 2024"]). right. left.
  - apply (Hrange "1990 - 1992" "1990 " " 1992" 1990%Z 1992%Z);
      [|reflexivity|reflexivity|reflexivity|reflexivity|lia].
    change ("1990 - 1992" ∈ ["1990 - 1992"; " 2024"]). left.
Defined.

(* ===================================================================== *)
(** ** Further properties of the wordlist *)

Section WordlistMore.

Variable set_iter : gset string -> list string.
Hypothesis set_iter_enumerates : forall X, set_iter X ≡ₚ elements X.

Variable lemmatizer : option (string -> option string).

Implicit Types (user_inputs separators : list string) (years : list Z).
Implicit Types (include_leet : bool) (max_size : Z) (word : string).

Lemma set_iter_empty : set_iter ∅ = [].
Proof.
  apply Permutation_nil_r. rewrite set_iter_enumerates.
  by rewrite elements_empty.
Qed.

(** The wordlist before it is cut. *)
Lemma build_wordlist_unfold user_inputs years separators include_leet max_size :
  build_wordlist set_iter lemmatizer user_inputs years separators include_leet
    max_size
  = let wordlist :=
      set_iter (wordlist_set elements lemmatizer user_inputs years separators
                  include_leet) in
    if (max_size <? Z.of_nat (length wordlist))%Z
    then PyStr.slice_to wordlist max_size
    else wordlist.
Proof.
  unfold build_wordlist. cbv zeta.
  by rewrite (wordlist_set_order set_iter), dict_fromkeys_id
    by (try done; by apply set_iter_NoDup).
Qed.

(** The cut adds no word. *)
Lemma elem_of_build_wordlist user_inputs years separators include_leet max_size
    word :
  word ∈ build_wordlist set_iter lemmatizer user_inputs years separators
           include_leet max_size ->
  word ∈ wordlist_set elements lemmatizer user_inputs years separators
           include_leet.
Proof.
  rewrite build_wordlist_unfold. cbv zeta. intros Hword.
  apply (elem_of_set_iter set_iter set_iter_enumerates).
  destruct (_ <? _)%Z; [|done].
  eapply elem_of_sublist; [exact Hword|apply slice_to_sublist].
Qed.

Lemma slice_to_length_exact {A} (l : list A) (k : Z) :
  (k < Z.of_nat (length l))%Z ->
  Z.of_nat (length (PyStr.slice_to l k))
  = (if (0 <=? k)%Z then k else Z.max 0 (Z.of_nat (length l) + k))%Z.
Proof.
  intros Hk. unfold PyStr.slice_to.
  destruct (Z.leb_spec 0 k); rewrite length_take; lia.
Qed.

Lemma expand_tokens_from include_leet (tokens : list string)
    (expanded : gset string) word :
  word ∈ foldl (fun expanded token =>
                  let expanded := expanded ∪ case_variants token in
                  if include_leet
                  then expanded ∪ apply_leetspeak token default_max_variants
                  else expanded)
               expanded tokens
  <-> word ∈ expanded
      \/ exists token, token ∈ tokens
           /\ (word ∈ case_variants token
               \/ (include_leet = true
                   /\ word ∈ apply_leetspeak token default_max_variants)).
Proof.
  revert expanded.
  induction tokens as [|token tokens IH]; intros expanded; simpl.
  - split; [by left|]. intros [?|(t & Ht & _)]; [done|]. by apply elem_of_nil in Ht.
  - rewrite IH. split.
    + intros [Hw|(t & Ht & Hf)].
      * destruct include_leet.
        -- apply elem_of_union in Hw as [Hw|Hw].
           ++ apply elem_of_union in Hw as [Hw|Hw]; [by left|].
              right. exists token. split; [left|]; auto.
           ++ right. exists token. split; [left|]; auto.
        -- apply elem_of_union in Hw as [Hw|Hw]; [by left|].
           right. exists token. split; [left|]; auto.
      * right. exists t. split; [by right|done].
    + intros [Hw|(t & Ht & Hf)].
      * left. destruct include_leet; repeat (apply elem_of_union; left); done.
      * apply elem_of_cons in Ht as [->|Ht]; [|right; by exists t].
        left. destruct Hf as [Hc|[-> Hl]].
        -- destruct include_leet; [apply elem_of_union; left|];
             apply elem_of_union; by right.
        -- apply elem_of_union. by right.
Qed.

(** The members of the first loop's set. *)
Lemma elem_of_expand_tokens include_leet (tokens : list string) word :
  word ∈ expand_tokens include_leet tokens
  <-> exists token, token ∈ tokens
        /\ (word ∈ case_variants token
            \/ (include_leet = true
                /\ word ∈ apply_leetspeak token default_max_variants)).
Proof.
  unfold expand_tokens. rewrite expand_tokens_from.
  split; [intros [Hw|?]; [|done]|by right].
  by apply elem_of_empty in Hw.
Qed.

End WordlistMore.

(** X3: for every iteration order of sets, the wordlist has as many
    entries as the set of words has members, at most [max_size] when
    [max_size] is not negative; a negative [max_size] drops that many
    entries from the end of the list instead. Every entry is a member of
    the set, and under the cap every member is an entry. *)
Theorem build_wordlist_length
    (set_iter : gset string -> list string)
    (lemmatizer : option (string -> option string))
    (user_inputs : list string) (years : list Z) (separators : list string)
    (include_leet : bool) (max_size : Z) :
  (forall X, set_iter X ≡ₚ elements X) ->
  let words :=
    wordlist_set elements lemmatizer user_inputs years separators include_leet in
  let wordlist :=
    build_wordlist set_iter lemmatizer user_inputs years separators
      include_leet max_size in
  Z.of_nat (length wordlist)
  = (if (0 <=? max_size)%Z then Z.min (Z.of_nat (size words)) max_size
     else Z.max 0 (Z.of_nat (size words) + max_size))%Z
  /\ (forall word, word ∈ wordlist -> word ∈ words)
  /\ ((Z.of_nat (size words) <= max_size)%Z ->
      forall word, word ∈ words -> word ∈ wordlist).
Proof.
  intros Horder. cbv zeta.
  rewrite build_wordlist_unfold by done. cbv zeta.
  set (words := wordlist_set elements _ _ _ _ _).
  rewrite (set_iter_length set_iter Horder).
  destruct (Z.ltb_spec max_size (Z.of_nat (size words))) as [Hcut|Hall].
  - split_and!.
    + rewrite slice_to_length_exact
        by (by rewrite (set_iter_length set_iter Horder)).
      rewrite (set_iter_length set_iter Horder).
      destruct (Z.leb_spec 0 max_size); lia.
    + intros word Hw. apply (elem_of_set_iter set_iter Horder).
      eapply elem_of_sublist; [done|apply slice_to_sublist].
    + lia.
  - split_and!.
    + rewrite (set_iter_length set_iter Horder).
      destruct (Z.leb_spec 0 max_size); lia.
    + intros word. by rewrite (elem_of_set_iter set_iter Horder).
    + intros _ word. by rewrite (elem_of_set_iter set_iter Horder).
Qed.

Lemma build_wordlist_length_witness :
  length (build_wordlist elements None ["Rex"] [2024]%Z [""] true 10) = 10
  /\ length (build_wordlist elements None ["Rex"] [2024]%Z [""] true 50000) = 48
  /\ length (build_wordlist elements None ["Rex"] [2024]%Z [""] true (-40)) = 8.
Proof.
  assert (forall X : gset string, elements X ≡ₚ elements X) as Horder by done.
  assert (size (wordlist_set elements None ["Rex"] [2024]%Z [""] true) = 48)
    as Hsize by (vm_compute; reflexivity).
  split_and!.
  - destruct (build_wordlist_length elements None ["Rex"] [2024]%Z [""] true 10
                Horder) as [Hlen _].
    rewrite Hsize in Hlen. revert Hlen.
    generalize (length (build_wordlist elements None ["Rex"] [2024]%Z [""]
                          true 10)).
    intros n Hn. change (0 <=? 10)%Z with true in Hn. cbv iota in Hn. lia.
  - destruct (build_wordlist_length elements None ["Rex"] [2024]%Z [""] true
                50000 Horder) as [Hlen _].
    rewrite Hsize in Hlen. revert Hlen.
    generalize (length (build_wordlist elements None ["Rex"] [2024]%Z [""]
                          true 50000)).
    intros n Hn. change (0 <=? 50000)%Z with true in Hn. cbv iota in Hn. lia.
  - destruct (build_wordlist_length elements None ["Rex"] [2024]%Z [""] true
                (-40) Horder) as [Hlen _].
    rewrite Hsize in Hlen. revert Hlen.
    generalize (length (build_wordlist elements None ["Rex"] [2024]%Z [""]
                          true (-40))).
    intros n Hn. change (0 <=? -40)%Z with false in Hn. cbv iota in Hn. lia.
Defined.

Section WordlistShape.

Variable lemmatizer : option (string -> option string).

Implicit Types (user_inputs separators : list string) (years : list Z).

(** The members of the set of words, by how they are built. *)
Lemma elem_of_wordlist_set user_inputs years separators include_leet
    (word : string) :
  word ∈ wordlist_set elements lemmatizer user_inputs years separators
           include_leet
  <-> exists stem,
        is_stem (expand_tokens include_leet (tokenize_inputs lemmatizer user_inputs))
                separators stem
        /\ (word = stem \/ exists y, y ∈ years /\ year_forms stem y word).
Proof.
  unfold wordlist_set. cbv zeta.
  set (expanded := expand_tokens include_leet _).
  rewrite elem_of_append_years.
  assert (forall stem,
            stem ∈ elements (expanded ∪ add_separators (elements expanded) separators)
            <-> is_stem expanded separators stem) as Hstem.
  { intros stem. rewrite elem_of_elements, elem_of_union, elem_of_add_separators.
    unfold is_stem. apply or_iff_compat_l.
    split; intros (a & b & sep & Hab & Hrest); exists a, b, sep.
    - apply elem_of_permutations2_NoDup in Hab as (Ha & Hb & Hne);
        [|apply NoDup_elements].
      rewrite !elem_of_elements in *. tauto.
    - destruct Hrest as (Hb & Hne & Hsep & ->).
      split; [|done].
      apply elem_of_permutations2_NoDup; [apply NoDup_elements|].
      by rewrite !elem_of_elements. }
  split; intros (stem & Hs & Hw); exists stem; (split; [by apply Hstem|done]).
Qed.

Lemma split_ws_breaks_only (item : string) :
  Forall (fun c => word_break c = true) (list_ascii_of_string item) ->
  PyStr.split_ws (PyStr.replace "-" " " (PyStr.replace "_" " " item)) = [].
Proof.
  unfold PyStr.split_ws, PyStr.replace.
  induction item as [|c item IH]; simpl; [done|].
  intros [Hc Hitem]%Forall_cons.
  unfold word_break in Hc.
  destruct (Ascii.eqb_spec c "_") as [->|Hu]; simpl; [by apply IH|].
  destruct (Ascii.eqb_spec c "-") as [->|Hd]; simpl; [by apply IH|].
  rewrite !orb_false_r in Hc. rewrite Hc. by apply IH.
Qed.

Lemma tokenize_inputs_breaks_only user_inputs :
  Forall (fun item => Forall (fun c => word_break c = true)
                             (list_ascii_of_string item)) user_inputs ->
  tokenize_inputs lemmatizer user_inputs = [].
Proof.
  intros Hall. unfold tokenize_inputs.
  replace (flat_map _ user_inputs) with (@nil string); [done|].
  symmetry. induction Hall as [|item items Hitem _ IH]; simpl; [done|].
  by rewrite split_ws_breaks_only, IH.
Qed.

End WordlistShape.

(** X4: every entry of the wordlist is a stem, or a stem followed by one
    of the years or by the last two characters of its numeral; a stem is
    an expanded variant or two different expanded variants joined by one
    of the separators; and an expanded variant is a case variant of a
    token or, with leetspeak on, a leetspeak variant of a token. Nothing
    else is produced: with leetspeak off the entries are made of case
    variants, separators and years alone. *)
Theorem build_wordlist_words
    (set_iter : gset string -> list string)
    (lemmatizer : option (string -> option string))
    (user_inputs : list string) (years : list Z) (separators : list string)
    (include_leet : bool) (max_size : Z) :
  (forall X, set_iter X ≡ₚ elements X) ->
  let expanded :=
    expand_tokens include_leet (tokenize_inputs lemmatizer user_inputs) in
  (forall word,
     word ∈ build_wordlist set_iter lemmatizer user_inputs years separators
              include_leet max_size ->
     exists stem,
       is_stem expanded separators stem
       /\ (word = stem \/ exists y, y ∈ years /\ year_forms stem y word))
  /\ (forall variant,
        variant ∈ expanded
        <-> exists token,
              token ∈ tokenize_inputs lemmatizer user_inputs
              /\ (variant ∈ case_variants token
                  \/ (include_leet = true
                      /\ variant ∈ apply_leetspeak token default_max_variants))).
Proof.
  intros Horder. cbv zeta. split.
  - intros word Hword.
    apply elem_of_wordlist_set.
    by apply (build_wordlist_length set_iter lemmatizer user_inputs years
                separators include_leet max_size Horder).
  - intros variant. apply elem_of_expand_tokens.
Qed.

Lemma build_wordlist_words_witness :
  exists stem,
    is_stem (expand_tokens false (tokenize_inputs None ["Rex"])) ["_"] stem
    /\ ("rex_REX24" = stem
        \/ exists y, y ∈ [2024]%Z /\ year_forms stem y "rex_REX24").
Proof.
  assert (forall X : gset string, elements X ≡ₚ elements X) as Horder by done.
  destruct (build_wordlist_words elements None ["Rex"] [2024]%Z ["_"] false
              50000 Horder) as [Hwords _].
  apply Hwords. apply (bool_decide_unpack _). vm_compute. exact I.
Defined.

(** X5: inputs in which every character is a blank, an underscore or a
    hyphen (and so an empty list of inputs) yield no token, and the
    wordlist is then empty whatever the years, the separators, the
    leetspeak setting and the cap. *)
Theorem build_wordlist_no_tokens
    (set_iter : gset string -> list string)
    (lemmatizer : option (string -> option string))
    (user_inputs : list string) (years : list Z) (separators : list string)
    (include_leet : bool) (max_size : Z) :
  (forall X, set_iter X ≡ₚ elements X) ->
  Forall (fun item => Forall (fun c => word_break c = true)
                             (list_ascii_of_string item)) user_inputs ->
  tokenize_inputs lemmatizer user_inputs = []
  /\ build_wordlist set_iter lemmatizer user_inputs years separators
       include_leet max_size = [].
Proof.
  intros Horder Hbreaks.
  pose proof (tokenize_inputs_breaks_only lemmatizer user_inputs Hbreaks) as Htok.
  split; [done|].
  unfold build_wordlist, wordlist_set. rewrite Htok. cbv zeta.
  change (expand_tokens include_leet []) with (∅ : gset string).
  rewrite (set_iter_empty set_iter Horder).
  change (add_separators [] separators) with (∅ : gset string).
  rewrite (left_id_L ∅ (∪)), (set_iter_empty set_iter Horder).
  change (append_years [] years) with (∅ : gset string).
  rewrite (set_iter_empty set_iter Horder).
  change (PyStr.dict_fromkeys []) with (@nil string).
  case_match; [|done].
  unfold PyStr.slice_to. case_match; apply take_nil.
Qed.

Lemma build_wordlist_no_tokens_witness :
  build_wordlist elements None ["_-_"; "   "; ""] [2024]%Z ["."] true 50000 = [].
Proof.
  apply (build_wordlist_no_tokens elements None ["_-_"; "   "; ""]).
  - intros X. reflexivity.
  - repeat constructor.
Defined.

(* ===================================================================== *)
(** ** Further properties of the leetspeak variants *)

Section LeetspeakMore.

Implicit Types (token : string) (variants : gset string).
Implicit Types (combos : list (list ascii)) (max_variants : Z).

(** A combination picks one option at each position. *)
Lemma elem_of_product {A} (chars : list (list A)) (combo : list A) :
  combo ∈ product chars <-> Forall2 (fun options x => x ∈ options) chars combo.
Proof.
  revert combo.
  induction chars as [|options chars IH]; intros combo; simpl.
  - rewrite list_elem_of_singleton. split; [intros ->; constructor|].
    by intros ->%Forall2_nil_inv_l.
  - rewrite elem_of_flat_map. split.
    + intros (x & Hx & (rest & -> & Hrest)%list_elem_of_fmap).
      constructor; [done|]. by apply IH.
    + intros (x & rest & Hx & Hrest & ->)%Forall2_cons_inv_l.
      exists x. split; [done|].
      apply list_elem_of_fmap. exists rest. split; [done|]. by apply IH.
Qed.

Lemma leet_collect_within max_variants variants combos (variant : string) :
  variant ∈ leet_collect max_variants variants combos ->
  variant ∈ variants
  \/ exists combo, combo ∈ combos /\ variant = string_of_list_ascii combo.
Proof.
  revert variants.
  induction combos as [|combo rest IH]; intros variants; simpl; [by left|].
  assert (variant ∈ variants ∪ {[ string_of_list_ascii combo ]} ->
          variant ∈ variants
          \/ exists c, c ∈ combo :: rest /\ variant = string_of_list_ascii c)
    as Hadd.
  { intros [?|Hnew%elem_of_singleton]%elem_of_union; [by left|].
    right. exists combo. split; [left|done]. }
  case_match; [done|].
  intros [Hv|(c & Hc & ->)]%IH; [by apply Hadd|].
  right. exists c. split; [by right|done].
Qed.

(** While the combinations left fit under the cap, the loop keeps them
    all. *)
Lemma leet_collect_all max_variants variants combos :
  (Z.of_nat (size variants + length combos) <= max_variants)%Z ->
  leet_collect max_variants variants combos
  = variants ∪ list_to_set (string_of_list_ascii <$> combos).
Proof.
  revert variants.
  induction combos as [|combo rest IH]; intros variants Hfit; simpl.
  - by rewrite (right_id_L ∅ (∪)).
  - pose proof (size_add_one variants (string_of_list_ascii combo)) as Hone.
    simpl in Hfit.
    destruct (Z.leb_spec max_variants
                (Z.of_nat (size (variants ∪ {[ string_of_list_ascii combo ]}))))
      as [Hcap|Hcap].
    + assert (length rest = 0) as ->%nil_length_inv by lia.
      simpl. rewrite (right_id_L ∅ (∪)). done.
    + rewrite IH by lia. rewrite <- (assoc_L (∪)). done.
Qed.

Lemma string_length_of_list (l : list ascii) :
  String.length (string_of_list_ascii l) = length l.
Proof. induction l as [|c l IH]; simpl; [done|]. by rewrite IH. Qed.

Lemma length_product {A} (chars : list (list A)) :
  length (product chars) = foldr (fun options n => length options * n) 1 chars.
Proof.
  induction chars as [|options chars IH]; simpl; [done|].
  rewrite <- IH. clear IH.
  induction options as [|x options IH]; simpl; [done|].
  by rewrite length_app, length_map, IH.
Qed.

End LeetspeakMore.

(** X6: every variant [apply_leetspeak] returns is the token with, at each
    position, the character itself or one of the substitutes [LEET_MAP]
    lists for its lower-case form; so a variant is as long as the token,
    and a character without an entry in [LEET_MAP] is never changed. *)
Theorem apply_leetspeak_variants (token variant : string) (max_variants : Z) :
  variant ∈ apply_leetspeak token max_variants ->
  Forall2 (fun ch c =>
             c = ch
             \/ exists subs,
                  dict_get LEET_MAP (PyStr.lower_char ch) = Some subs /\ c ∈ subs)
          (list_ascii_of_string token) (list_ascii_of_string variant)
  /\ String.length variant = String.length token.
Proof.
  intros Hv. unfold apply_leetspeak in Hv.
  apply leet_collect_within in Hv as [Hv|(combo & Hcombo & ->)];
    [by apply elem_of_empty in Hv|].
  rewrite list_ascii_of_string_of_list_ascii.
  apply elem_of_product in Hcombo.
  rewrite Forall2_fmap_l in Hcombo.
  assert (Forall2 (fun ch c =>
             c = ch
             \/ exists subs,
                  dict_get LEET_MAP (PyStr.lower_char ch) = Some subs /\ c ∈ subs)
            (list_ascii_of_string token) combo) as Hshape.
  { eapply Forall2_impl; [exact Hcombo|].
    intros ch c Hc. simpl in Hc. unfold leet_options in Hc.
    destruct (dict_get LEET_MAP (PyStr.lower_char ch)) as [subs|].
    - apply elem_of_cons in Hc as [->|Hc]; [by left|]. right. by exists subs.
    - apply list_elem_of_singleton in Hc. by left. }
  split; [done|].
  apply Forall2_length in Hshape.
  by rewrite string_length_of_list, <- Hshape, <- string_length_of_list,
    string_of_list_ascii_of_string.
Qed.

Lemma apply_leetspeak_variants_witness :
  String.length "R3x" = String.length "Rex".
Proof.
  apply (apply_leetspeak_variants "Rex" "R3x" 128).
  apply (bool_decide_unpack _). vm_compute. exact I.
Defined.

(** X7: when the number of combinations, the product over the characters
    of the token of one plus the number of their substitutes, is at most
    [max_variants], nothing is cut: [apply_leetspeak] returns every
    combination. *)
Theorem apply_leetspeak_complete (token : string) (max_variants : Z) :
  (Z.of_nat (foldr (fun ch n => (length (leet_options ch) * n)%nat) 1%nat
               (list_ascii_of_string token)) <= max_variants)%Z ->
  forall variant,
    variant ∈ apply_leetspeak token max_variants
    <-> exists combo,
          variant = string_of_list_ascii combo
          /\ Forall2 (fun ch c => c ∈ leet_options ch)
                     (list_ascii_of_string token) combo.
Proof.
  intros Hfit variant. unfold apply_leetspeak.
  rewrite leet_collect_all.
  - rewrite (left_id_L ∅ (∪)), elem_of_list_to_set, list_elem_of_fmap.
    split; intros (combo & -> & Hcombo); exists combo; (split; [done|]).
    + apply elem_of_product in Hcombo. by rewrite Forall2_fmap_l in Hcombo.
    + apply elem_of_product. by rewrite Forall2_fmap_l.
  - rewrite size_empty, length_product. simpl.
    replace (foldr _ 1 (map leet_options (list_ascii_of_string token)))
      with (foldr (fun ch n => length (leet_options ch) * n) 1
              (list_ascii_of_string token)); [done|].
    clear Hfit.
    induction (list_ascii_of_string token) as [|c l IH]; simpl; [done|].
    by rewrite IH.
Qed.

Lemma apply_leetspeak_complete_witness :
  "7051" ∈ apply_leetspeak "Tosi" 128.
Proof.
  apply (apply_leetspeak_complete "Tosi" 128).
  - vm_compute. discriminate.
  - exists ["7"; "0"; "5"; "1"]%char. split; [reflexivity|].
    repeat constructor; apply (bool_decide_unpack _); vm_compute; exact I.
Defined.

(* ===================================================================== *)
(** ** Further properties of the case variants *)

Section CaseVariants.

Implicit Types (c : ascii) (s token : string).

Lemma lower_upper_char c : PyStr.lower_char (PyStr.upper_char c) = PyStr.lower_char c.
Proof. destruct c as [[] [] [] [] [] [] [] []]; reflexivity. Qed.

Lemma lower_lower_char c : PyStr.lower_char (PyStr.lower_char c) = PyStr.lower_char c.
Proof. destruct c as [[] [] [] [] [] [] [] []]; reflexivity. Qed.

Lemma lower_lower s : PyStr.lower (PyStr.lower s) = PyStr.lower s.
Proof.
  unfold PyStr.lower. induction s as [|c s IH]; simpl; [done|].
  by rewrite lower_lower_char, IH.
Qed.

Lemma lower_upper s : PyStr.lower (PyStr.upper s) = PyStr.lower s.
Proof.
  unfold PyStr.lower, PyStr.upper. induction s as [|c s IH]; simpl; [done|].
  by rewrite lower_upper_char, IH.
Qed.

Lemma lower_title_from (previous_is_cased : bool) s :
  PyStr.lower (PyStr.title_from previous_is_cased s) = PyStr.lower s.
Proof.
  unfold PyStr.lower. revert previous_is_cased.
  induction s as [|c s IH]; intros previous_is_cased; simpl; [done|].
  rewrite IH. by destruct previous_is_cased;
    rewrite ?lower_lower_char, ?lower_upper_char.
Qed.

Lemma length_map_chars (f : ascii -> ascii) s :
  String.length (PyStr.map_chars f s) = String.length s.
Proof. induction s as [|c s IH]; simpl; [done|]. by rewrite IH. Qed.

Lemma length_title_from (previous_is_cased : bool) s :
  String.length (PyStr.title_from previous_is_cased s) = String.length s.
Proof.
  revert previous_is_cased.
  induction s as [|c s IH]; intros previous_is_cased; simpl; [done|].
  by rewrite IH.
Qed.

(** The three variants that are always there. *)
Lemma case_variants_base token (variant : string) :
  variant ∈ ({[ PyStr.lower token; PyStr.upper token; PyStr.title token ]}
             : gset string) ->
  PyStr.lower variant = PyStr.lower token
  /\ String.length variant = String.length token.
Proof.
  rewrite !elem_of_union, !elem_of_singleton. intros [[-> | ->] | ->].
  - split; [apply lower_lower|apply length_map_chars].
  - split; [apply lower_upper|apply length_map_chars].
  - split; [apply lower_title_from|apply length_title_from].
Qed.

Lemma case_variants_subseteq token :
  ({[ PyStr.lower token; PyStr.upper token; PyStr.title token ]} : gset string)
  ⊆ case_variants token.
Proof.
  unfold case_variants. destruct token as [|c rest]; [done|].
  destruct (PyStr.isalpha c); [apply union_subseteq_l|done].
Qed.

End CaseVariants.

(** X8: the case variants of a token always hold its lower-case,
    upper-case and title-case forms; every variant is the token up to
    the case of its letters and is as long as the token; and there are
    between one and four of them. *)
Theorem case_variants_spec (token : string) :
  PyStr.lower token ∈ case_variants token
  /\ PyStr.upper token ∈ case_variants token
  /\ PyStr.title token ∈ case_variants token
  /\ (forall variant,
        variant ∈ case_variants token ->
        PyStr.lower variant = PyStr.lower token
        /\ String.length variant = String.length token)
  /\ 1 <= size (case_variants token) <= 4.
Proof.
  pose proof (case_variants_subseteq token) as Hbase.
  assert (size ({[ PyStr.lower token; PyStr.upper token; PyStr.title token ]}
                : gset string) <= 3) as Hthree.
  { etrans; [apply size_add_one|]. apply le_n_S.
    etrans; [apply size_add_one|]. by rewrite size_singleton. }
  split_and!.
  - apply Hbase. rewrite !elem_of_union, !elem_of_singleton. auto.
  - apply Hbase. rewrite !elem_of_union, !elem_of_singleton. auto.
  - apply Hbase. rewrite !elem_of_union, !elem_of_singleton. auto.
  - intros variant. unfold case_variants.
    destruct token as [|c rest]; [apply case_variants_base|].
    destruct (PyStr.isalpha c); [|apply case_variants_base].
    intros [Hv|Hv%elem_of_singleton]%elem_of_union;
      [by apply case_variants_base|].
    subst variant. split; [|done].
    unfold PyStr.lower. simpl. by rewrite lower_upper_char.
  - assert (PyStr.lower token ∈ case_variants token) as Hin.
    { apply Hbase. rewrite !elem_of_union, !elem_of_singleton. auto. }
    destruct (size (case_variants token)) eqn:Hsize; [|lia].
    apply size_empty_iff in Hsize. rewrite Hsize in Hin.
    by apply elem_of_empty in Hin.
  - unfold case_variants. destruct token as [|c rest]; [lia|].
    destruct (PyStr.isalpha c); [|lia].
    etrans; [apply size_add_one|]. lia.
Qed.

(* ===================================================================== *)
(** ** Further properties of the separator joins *)

(** X9: over tokens without repetition, as the members of a set are,
    [add_separators] returns exactly the words [a + sep + b] for two
    different tokens [a], [b] and a separator [sep], in both orders;
    with fewer than two tokens, or without separators, it returns
    nothing. *)
Theorem add_separators_spec (tokens separators : list string) :
  (NoDup tokens ->
   forall word,
     word ∈ add_separators tokens separators
     <-> exists a b sep,
           a ∈ tokens /\ b ∈ tokens /\ a <> b /\ sep ∈ separators
           /\ word = a +:+ sep +:+ b)
  /\ (length tokens < 2 -> add_separators tokens separators = ∅)
  /\ add_separators tokens [] = ∅.
Proof.
  split_and!.
  - intros Hnd word. rewrite elem_of_add_separators.
    split; intros (a & b & sep & Hrest); exists a, b, sep.
    + destruct Hrest as (Hab & Hsep & ->).
      apply elem_of_permutations2_NoDup in Hab as (Ha & Hb & Hne); done.
    + destruct Hrest as (Ha & Hb & Hne & Hsep & ->).
      split_and!; [|done..]. by apply elem_of_permutations2_NoDup.
  - intros Hfew. destruct tokens as [|a [|b tokens]]; [done..|].
    simpl in Hfew. lia.
  - apply set_eq. intros word. rewrite elem_of_add_separators. split.
    + intros (a & b & sep & _ & Hsep & _). by apply elem_of_nil in Hsep.
    + intros Hw. by apply elem_of_empty in Hw.
Qed.

Lemma add_separators_spec_witness :
  "ab_cd" ∈ add_separators ["ab"; "cd"] ["_"]
  /\ "cd_ab" ∈ add_separators ["ab"; "cd"] ["_"].
Proof.
  destruct (add_separators_spec ["ab"; "cd"] ["_"]) as [Hmem _].
  assert (NoDup ["ab"; "cd"]) as Hnd.
  { apply (bool_decide_unpack _). vm_compute. exact I. }
  split; apply (Hmem Hnd).
  - exists "ab", "cd", "_". split_and!; try reflexivity; try discriminate.
    + left.
    + right. left.
    + left.
  - exists "cd", "ab", "_". split_and!; try reflexivity; try discriminate.
    + right. left.
    + left.
    + left.
Defined.

(* ===================================================================== *)
(** ** Further properties of the tokens *)

Section Tokens.

Implicit Types (c : ascii) (s word acc : string).

Lemma chars_append s1 s2 :
  list_ascii_of_string (s1 +:+ s2)
  = list_ascii_of_string s1 ++ list_ascii_of_string s2.
Proof. induction s1 as [|c s1 IH]; simpl; [done|]. by rewrite IH. Qed.

(** The words [split()] yields are made of the characters of the string,
    none of them blank, and are not empty. *)
Lemma split_ws_from_words (P : ascii -> Prop) acc s word :
  Forall (fun c => P c /\ PyStr.isspace c = false) (list_ascii_of_string acc) ->
  Forall P (list_ascii_of_string s) ->
  word ∈ PyStr.split_ws_from acc s ->
  word <> EmptyString
  /\ Forall (fun c => P c /\ PyStr.isspace c = false) (list_ascii_of_string word).
Proof.
  revert acc.
  induction s as [|c s IH]; intros acc Hacc Hs; simpl.
  - destruct acc as [|a acc]; simpl; [by intros ?%elem_of_nil|].
    by intros ->%list_elem_of_singleton.
  - apply Forall_cons in Hs as [Hc Hs].
    destruct (PyStr.isspace c) eqn:Hspace.
    + destruct acc as [|a acc]; simpl.
      * apply IH; [constructor|done].
      * intros [->|Hw]%elem_of_cons; [done|].
        revert Hw. apply IH; [constructor|done].
    + apply IH; [|done].
      rewrite chars_append. apply Forall_app. split; [done|].
      simpl. by repeat constructor.
Qed.

Lemma lstrip_no_blank (blank : ascii -> bool) s :
  Forall (fun c => blank c = false) (list_ascii_of_string s) ->
  PyStr.lstrip_with blank s = s.
Proof. destruct s as [|c s]; simpl; [done|]. by intros [-> _]%Forall_cons. Qed.

Lemma rstrip_no_blank (blank : ascii -> bool) s :
  Forall (fun c => blank c = false) (list_ascii_of_string s) ->
  PyStr.rstrip_with blank s = s.
Proof.
  induction s as [|c s IH]; simpl; [done|].
  intros [Hc Hs]%Forall_cons. rewrite IH by done.
  destruct s; [by rewrite Hc|done].
Qed.

Lemma strip_no_blank s :
  Forall (fun c => PyStr.isspace c = false) (list_ascii_of_string s) ->
  PyStr.strip s = s.
Proof.
  intros Hs. unfold PyStr.strip, PyStr.strip_with.
  by rewrite lstrip_no_blank, rstrip_no_blank.
Qed.

(** After the two replacements no underscore and no hyphen is left. *)
Lemma replaced_chars s :
  Forall (fun c => c <> "_"%char /\ c <> "-"%char)
         (list_ascii_of_string
            (PyStr.replace "-" " " (PyStr.replace "_" " " s))).
Proof.
  unfold PyStr.replace. induction s as [|c s IH]; simpl; constructor; [|done].
  destruct (Ascii.eqb_spec c "_") as [->|Hu]; simpl; [done|].
  destruct (Ascii.eqb_spec c "-") as [->|Hd]; simpl; done.
Qed.

Lemma word_break_false c :
  c <> "_"%char -> c <> "-"%char -> PyStr.isspace c = false ->
  word_break c = false.
Proof.
  intros Hu Hd Hs. unfold word_break. rewrite Hs. simpl.
  destruct (Ascii.eqb_spec c "_"), (Ascii.eqb_spec c "-"); done.
Qed.

End Tokens.

(** X10: [tokenize_inputs] returns no token twice; and without a
    lemmatizer every token is non-empty and holds no blank, no
    underscore and no hyphen. *)
Theorem tokenize_inputs_tokens
    (lemmatizer : option (string -> option string))
    (raw_inputs : list string) :
  NoDup (tokenize_inputs lemmatizer raw_inputs)
  /\ (lemmatizer = None ->
      forall token,
        token ∈ tokenize_inputs lemmatizer raw_inputs ->
        token <> EmptyString
        /\ Forall (fun c => word_break c = false) (list_ascii_of_string token)).
Proof.
  split; [apply dict_fromkeys_NoDup|].
  intros -> token. unfold tokenize_inputs, PyStr.dict_fromkeys.
  rewrite elem_of_fromkeys_from. intros [Htok _].
  apply elem_of_flat_map in Htok as (item & _ & Htok).
  apply elem_of_flat_map in Htok as (word & Hword & Htok).
  apply (split_ws_from_words (fun c => c <> "_"%char /\ c <> "-"%char)) in Hword
    as [Hne Hchars]; [|constructor|apply replaced_chars].
  unfold tokens_of_word in Htok.
  rewrite strip_no_blank in Htok
    by (eapply Forall_impl; [exact Hchars|]; by intros c [_ ?]).
  destruct word as [|c word]; [done|]. simpl in Htok.
  apply list_elem_of_singleton in Htok as ->.
  split; [done|].
  eapply Forall_impl; [exact Hchars|].
  intros a [[Hu Hd] Hs]. by apply word_break_false.
Qed.

Lemma tokenize_inputs_tokens_witness :
  tokenize_inputs None ["john_doe-smith  JOHN"; "doe"]
  = ["john"; "doe"; "smith"; "JOHN"]
  /\ "smith" <> EmptyString
  /\ Forall (fun c => word_break c = false) (list_ascii_of_string "smith").
Proof.
  split; [reflexivity|].
  destruct (tokenize_inputs_tokens None ["john_doe-smith  JOHN"; "doe"])
    as [_ Htokens].
  apply Htokens; [reflexivity|].
  apply (bool_decide_unpack _). vm_compute. exact I.
Defined.

(* ===================================================================== *)
(** ** Further properties of [analyze_password] *)

Section AnalyzeMore.

Lemma or_else_not_empty (s default : string) :
  default <> EmptyString -> or_else s default <> EmptyString.
Proof. intros Hd. unfold or_else. by destruct s. Qed.

End AnalyzeMore.

(** X11: whenever [analyze_password] returns, with [zxcvbn] or without,
    the result carries the password it was given, a feedback text that
    is not empty, and as [entropy_bits] the Shannon entropy of the
    password, which is not negative. *)
Theorem analyze_password_result
    (zxcvbn : option (string -> list string -> result ZxcvbnResult))
    (pwd : string) (user_inputs : option (list string)) (r : StrengthResult) :
  analyze_password zxcvbn pwd user_inputs = Ok r ->
  password r = pwd
  /\ feedback r <> EmptyString
  /\ shannon_entropy pwd = Ok (entropy_bits r)
  /\ (0 <= entropy_bits r)%R.
Proof.
  unfold analyze_password.
  destruct (shannon_entropy pwd) as [h|e] eqn:Hh; [|done]. simpl.
  pose proof (shannon_entropy_nonneg pwd h Hh) as Hpos.
  destruct zxcvbn as [zxcvbn|].
  - destruct (zxcvbn pwd (or_default [] user_inputs)) as [res|e]; [|done].
    simpl. intros [= <-]. simpl. split_and!; try done.
    by apply or_else_not_empty.
  - destruct (fallback_score pwd) as [s|e]; [|done].
    simpl. intros [= <-]. simpl. by split_and!.
Qed.

Lemma analyze_password_result_witness :
  exists r,
    analyze_password
      (Some (fun _ _ => Ok {| zx_score := Some 3%Z;
                              zx_offline_slow_hashing := Some "centuries";
                              zx_warning := None;
                              zx_suggestions := Some [] |}))
      "" None = Ok r
    /\ password r = "" /\ feedback r <> EmptyString.
Proof.
  eexists. split; [reflexivity|].
  destruct (analyze_password_result
              (Some (fun _ _ => Ok {| zx_score := Some 3%Z;
                                      zx_offline_slow_hashing := Some "centuries";
                                      zx_warning := None;
                                      zx_suggestions := Some [] |}))
              "" None _ eq_refl) as (Hpwd & Hfeedback & _).
  split; [exact Hpwd|exact Hfeedback].
Defined.

(** X12: with [zxcvbn] at hand, its exception reaches the caller; its
    score is passed on as it is; a result that lacks the score, the crack
    time or the feedback gives score 0, "n/a" and "No feedback"; and the
    user inputs handed to [zxcvbn] are the empty list when none were
    given. *)
Theorem analyze_password_zxcvbn
    (zxcvbn : string -> list string -> result ZxcvbnResult)
    (pwd : string) (user_inputs : option (list string)) :
  (forall e,
     zxcvbn pwd (or_default [] user_inputs) = Raise e ->
     analyze_password (Some zxcvbn) pwd user_inputs = Raise e)
  /\ (forall res,
        zxcvbn pwd (or_default [] user_inputs) = Ok res ->
        exists r,
          analyze_password (Some zxcvbn) pwd user_inputs = Ok r
          /\ score r = or_default 0%Z (zx_score res)
          /\ crack_time_display r = or_default "n/a" (zx_offline_slow_hashing res)
          /\ (zx_warning res = None \/ zx_warning res = Some "" ->
              zx_suggestions res = None \/ zx_suggestions res = Some [] ->
              feedback r = "No feedback")).
Proof.
  unfold analyze_password. rewrite shannon_entropy_ok. simpl. split.
  - by intros e ->.
  - intros res ->. simpl. eexists. split; [done|]. simpl.
    split_and!; try done.
    by intros [-> | ->] [-> | ->].
Qed.

Lemma analyze_password_zxcvbn_witness :
  exists r,
    analyze_password
      (Some (fun _ _ => Ok {| zx_score := None;
                              zx_offline_slow_hashing := None;
                              zx_warning := Some "";
                              zx_suggestions := None |}))
      "hunter2" (Some ["hunter"]) = Ok r
    /\ score r = 0%Z /\ crack_time_display r = "n/a"
    /\ feedback r = "No feedback".
Proof.
  destruct (analyze_password_zxcvbn
              (fun _ _ => Ok {| zx_score := None;
                                zx_offline_slow_hashing := None;
                                zx_warning := Some "";
                                zx_suggestions := None |})
              "hunter2" (Some ["hunter"])) as [_ Hok].
  destruct (Hok _ eq_refl) as (r & Hr & Hscore & Hcrack & Hfeedback).
  exists r. split_and!; [exact Hr|exact Hscore|exact Hcrack|].
  apply Hfeedback; [by right|by left].
Defined.

(* ===================================================================== *)
(** ** The fallback score in whole numbers *)

Section Score.

Open Scope R_scope.

Lemma Int_part_ge (x : R) (j : Z) : (j <= Int_part x)%Z <-> IZR j <= x.
Proof.
  destruct (base_Int_part x) as [Hup Hlow]. split.
  - intros Hj%IZR_le. lra.
  - intros Hj. assert (IZR (j - 1) < IZR (Int_part x)) as Hlt.
    { rewrite minus_IZR. lra. }
    apply lt_IZR in Hlt. lia.
Qed.

Lemma Int_part_mono (x y : R) : x <= y -> (Int_part x <= Int_part y)%Z.
Proof.
  intros Hxy. apply Int_part_ge.
  destruct (base_Int_part x) as [Hup _]. lra.
Qed.

Lemma ln_le_iff (x y : R) : 0 < x -> 0 < y -> ln x <= ln y <-> x <= y.
Proof.
  intros Hx Hy. split; [|by apply ln_le_mono].
  intros Hln. destruct (Rle_or_lt x y) as [|Hlt]; [done|].
  apply ln_increasing in Hlt; [lra|done].
Qed.

(** The naive bit count reaches [20 j] exactly when the number of
    distinct characters, raised to the length, reaches [2 ^ (20 j)]. *)
Lemma naive_bits_threshold (k n j : nat) :
  (1 <= k)%nat ->
  IZR (Z.of_nat j) <= ln (INR k) / ln 2 * INR n / 20
  <-> (2 ^ (20 * j) <= k ^ n)%nat.
Proof.
  intros Hk. pose proof ln_2_pos as Hln2.
  assert (0 < INR k) as Hkpos by (apply lt_0_INR; lia).
  assert (0 < INR 2) as H2pos by (apply lt_0_INR; lia).
  assert (INR 2 = 2) as H2 by (simpl; lra).
  rewrite <- INR_IZR_INZ.
  transitivity (ln (INR 2 ^ (20 * j)) <= ln (INR k ^ n)).
  - rewrite !ln_pow by done. rewrite mult_INR, H2.
    replace (INR 20) with 20 by (simpl; lra).
    split; intros Hle.
    + apply (Rmult_le_compat_r (20 * ln 2)) in Hle; [|lra].
      replace (ln (INR k) / ln 2 * INR n / 20 * (20 * ln 2))
        with (INR n * ln (INR k)) in Hle by (field; lra).
      lra.
    + apply (Rmult_le_reg_r (20 * ln 2)); [lra|].
      replace (ln (INR k) / ln 2 * INR n / 20 * (20 * ln 2))
        with (INR n * ln (INR k)) by (field; lra).
      lra.
  - rewrite ln_le_iff by (apply pow_lt; done).
    rewrite <- !pow_INR. split; [apply INR_le|apply le_INR].
Qed.

(** The score, once nothing can be raised any more. *)
Lemma fallback_score_value (pwd : string) :
  fallback_score pwd
  = Ok (Z.min 4 (Int_part (ln (INR (or_one (length (char_set pwd)))) / ln 2
                           * INR (String.length pwd) / 20))).
Proof.
  unfold fallback_score, naive_bits. rewrite naive_bits_of_ok. simpl.
  unfold floor_div. destruct (Req_dec_T 20 0); [lra|]. simpl.
  by rewrite int_of_float_IZR.
Qed.

End Score.

(** X13: the fallback score is the greatest [j] among 0, ..., 4 such that
    the number of distinct characters (one, for the empty password),
    raised to the length of the password, is at least [2 ^ (20 j)]. *)
Theorem fallback_score_threshold (pwd : string) :
  exists s,
    fallback_score pwd = Ok s
    /\ (0 <= s <= 4)%Z
    /\ forall j : nat,
         j <= 4 ->
         (Z.of_nat j <= s)%Z
         <-> 2 ^ (20 * j) <= or_one (length (char_set pwd)) ^ String.length pwd.
Proof.
  eexists. split; [apply fallback_score_value|].
  pose proof (naive_bits_of_nonneg (length (char_set pwd)) (String.length pwd))
    as Hbits.
  assert (0 <= Int_part (ln (INR (or_one (length (char_set pwd)))) / ln 2
                         * INR (String.length pwd) / 20))%Z as Hfloor.
  { apply Int_part_nonneg. lra. }
  split; [lia|].
  intros j Hj.
  rewrite <- naive_bits_threshold by apply or_one_pos.
  rewrite <- Int_part_ge. lia.
Qed.

Lemma fallback_score_threshold_witness :
  exists s, fallback_score "correcthorsebatterystaple" = Ok s /\ s = 4%Z.
Proof.
  destruct (fallback_score_threshold "correcthorsebatterystaple")
    as (s & Hs & Hrange & Hj).
  exists s. split; [exact Hs|].
  assert (Z.of_nat 4 <= s)%Z; [|lia].
  apply Hj; [lia|].
  replace (length (char_set "correcthorsebatterystaple")) with 12
    by (vm_compute; reflexivity).
  replace (or_one 12) with 12 by reflexivity.
  apply Nat2Z.inj_le. rewrite !Nat2Z.inj_pow.
  vm_compute. discriminate.
Defined.

(** X14: the fallback score does not decrease when both the number of
    distinct characters and the length grow or stay; and a password made
    of one repeated character, like the empty password, scores 0 however
    long it is. *)
Theorem fallback_score_order (p q : string) :
  exists sp sq,
    fallback_score p = Ok sp /\ fallback_score q = Ok sq
    /\ (length (char_set p) <= length (char_set q) ->
        String.length p <= String.length q -> (sp <= sq)%Z)
    /\ (length (char_set p) <= 1 -> sp = 0%Z).
Proof.
  eexists _, _. split_and!; [apply fallback_score_value..| |].
  - intros Hchars Hlen.
    apply Z.min_le_compat_l, Int_part_mono.
    pose proof (naive_bits_of_mono _ _ _ _ Hchars Hlen). lra.
  - intros Hone.
    assert (or_one (length (char_set p)) = 1) as ->.
    { unfold or_one. destruct (Nat.eqb_spec (length (char_set p)) 0); lia. }
    rewrite INR_1, ln_1.
    replace (0 / ln 2 * INR (String.length p) / 20)%R with (IZR 0)
      by (unfold Rdiv; lra).
    by rewrite Int_part_IZR.
Qed.

Lemma fallback_score_order_witness :
  exists sp sq,
    fallback_score "aaaaaaaa" = Ok sp
    /\ fallback_score "correcthorsebatterystaple" = Ok sq
    /\ sp = 0%Z /\ (sp <= sq)%Z.
Proof.
  destruct (fallback_score_order "aaaaaaaa" "correcthorsebatterystaple")
    as (sp & sq & Hp & Hq & Hmono & Hone).
  exists sp, sq. split_and!; [exact Hp|exact Hq| |].
  - apply Hone. vm_compute. lia.
  - apply Hmono; vm_compute; lia.
Defined.

(* ===================================================================== *)
(** ** The extremes of the Shannon entropy *)

Section EntropyExtremes.

Implicit Types (password : string) (ch : ascii).

Lemma count_all ch password :
  Forall (eq ch) (list_ascii_of_string password) ->
  count ch password = String.length password.
Proof.
  induction password as [|c rest IH]; simpl; [done|].
  intros [<- Hrest]%Forall_cons. by rewrite Ascii.eqb_refl, IH.
Qed.

(** Two different characters share the length. *)
Lemma count_two ch ch' password :
  ch <> ch' -> count ch password + count ch' password <= String.length password.
Proof.
  intros Hne. induction password as [|c rest IH]; simpl; [done|].
  destruct (Ascii.eqb_spec c ch), (Ascii.eqb_spec c ch'); simpl;
    [congruence|lia..].
Qed.

Lemma sum_from_le (terms : list R) (acc : R) :
  Forall (fun t => t <= 0)%R terms -> (foldl Rplus acc terms <= acc)%R.
Proof.
  intros Hterms. revert acc.
  induction Hterms as [|t terms Ht _ IH]; intros acc; simpl; [lra|].
  specialize (IH (acc + t)%R). lra.
Qed.

(** A character that is not the only one contributes a negative term. *)
Lemma term_value_neg (length : R) (c : nat) :
  (0 < INR c < length)%R -> (term_value length c < 0)%R.
Proof.
  intros [Hc Hlt]. unfold term_value.
  assert (0 < INR c / length < 1)%R as [Hp Hp1].
  { split; [apply Rdiv_lt_0_compat; lra|].
    apply (Rmult_lt_reg_r length); [lra|].
    unfold Rdiv. rewrite Rmult_assoc, Rinv_l by lra. lra. }
  pose proof (ln_increasing _ _ Hp Hp1) as Hln. rewrite ln_1 in Hln.
  pose proof ln_2_pos.
  assert (ln (INR c / length) / ln 2 < 0)%R.
  { pose proof (Rinv_0_lt_compat _ ln_2_pos). unfold Rdiv. nra. }
  nra.
Qed.

(** One distinct character: the one count is the length. *)
Lemma counts_one_char password :
  length (char_set password) <= 1 -> password <> EmptyString ->
  counts password = [String.length password].
Proof.
  intros Hone Hne. unfold counts.
  destruct password as [|a rest]; [done|].
  assert (a ∈ char_set (String a rest)) as Ha by (apply elem_of_char_set; left).
  destruct (char_set (String a rest)) as [|x [|y l]] eqn:Hset;
    [by apply elem_of_nil in Ha| |simpl in Hone; lia].
  apply list_elem_of_singleton in Ha as <-.
  cbn [map]. f_equal. apply count_all, Forall_forall.
  intros ch Hch. apply elem_of_char_set in Hch.
  rewrite Hset in Hch. by apply list_elem_of_singleton in Hch.
Qed.

End EntropyExtremes.

(** X15: the Shannon entropy of a password with at most one distinct
    character is 0, and that of a password with two distinct characters
    or more is positive. *)
Theorem shannon_entropy_extremes (pwd : string) :
  (length (char_set pwd) <= 1 -> shannon_entropy pwd = Ok 0%R)
  /\ (2 <= length (char_set pwd) ->
      exists h, shannon_entropy pwd = Ok h /\ (0 < h)%R).
Proof.
  split.
  - intros Hone. rewrite shannon_entropy_ok.
    destruct pwd as [|a rest]; [done|]. cbn [PyStr.is_empty].
    rewrite counts_one_char by done. f_equal.
    set (n := String.length (String a rest)).
    assert (0 < INR n)%R as Hn by (apply lt_0_INR; unfold n; simpl; lia).
    unfold sum, term_value. cbn [map foldl].
    replace (INR n / INR n)%R with 1%R by (field; lra).
    rewrite ln_1. unfold Rdiv. lra.
  - intros Htwo. eexists. split; [apply shannon_entropy_ok|].
    destruct pwd as [|a rest]; [vm_compute in Htwo; lia|].
    cbn [PyStr.is_empty].
    set (p := String a rest) in *. set (n := String.length p).
    assert (0 < INR n)%R as Hn by (apply lt_0_INR; unfold n; simpl; lia).
    assert (Forall (fun c => 0 < INR c <= INR n)%R (counts p)) as Hrange.
    { apply Forall_forall. intros c Hc. by apply counts_real_range. }
    assert (NoDup (char_set p)) as Hnd by (unfold char_set; apply NoDup_elements).
    unfold counts in *.
    destruct (char_set p) as [|x [|y l]] eqn:Hset; [simpl in Htwo; lia..|].
    assert (x <> y) as Hxy.
    { apply NoDup_cons in Hnd as [Hx _]. intros ->. apply Hx. left. }
    assert (1 <= count y p) as Hy.
    { apply count_pos, elem_of_char_set. rewrite Hset. right. left. }
    assert (1 <= count x p) as Hx.
    { apply count_pos, elem_of_char_set. rewrite Hset. left. }
    pose proof (count_two x y p Hxy) as Hsum. fold n in Hsum.
    cbn [map] in *. apply Forall_cons in Hrange as [_ Hrest].
    apply Forall_cons in Hrest as [Hyrange Hrest].
    assert (term_value (INR n) (count x p) < 0)%R as Hneg.
    { apply term_value_neg. split; [apply lt_0_INR; lia|apply lt_INR; lia]. }
    pose proof (term_value_nonpos _ _ Hyrange) as Hynonpos.
    unfold sum. cbn [foldl].
    match goal with
    | |- context [foldl Rplus ?acc ?terms] =>
        assert (foldl Rplus acc terms <= acc)%R as Hle
    end.
    { apply sum_from_le, Forall_fmap.
      eapply Forall_impl; [exact Hrest|].
      intros c Hc. by apply term_value_nonpos. }
    nra.
Qed.

Lemma shannon_entropy_extremes_witness :
  shannon_entropy "aaaa" = Ok 0%R
  /\ exists h, shannon_entropy "abab" = Ok h /\ (0 < h)%R.
Proof.
  split.
  - destruct (shannon_entropy_extremes "aaaa") as [Hzero _].
    apply Hzero. vm_compute. lia.
  - destruct (shannon_entropy_extremes "abab") as [_ Hpos].
    apply Hpos. vm_compute. lia.
Defined.

(* ===================================================================== *)
(** ** Further properties of the year suffixes *)

(** X16: [append_years] returns nothing but the tokens, the tokens
    followed by a year and the tokens followed by the last two characters
    of a year's numeral: the year is always a suffix, the result does not
    depend on the order of the tokens, and it has at most
    [(1 + 2 * len(years)) * len(tokens)] members. *)
Theorem append_years_only (tokens : list string) (years : list Z) :
  (forall word,
     word ∈ append_years tokens years ->
     exists token,
       token ∈ tokens
       /\ (word = token
           \/ exists y, y ∈ years
                /\ (word = token +:+ PyStr.str y
                    \/ word = token +:+ PyStr.last_two (PyStr.str y))))
  /\ (forall tokens', tokens ≡ₚ tokens' ->
        append_years tokens years = append_years tokens' years)
  /\ size (append_years tokens years) <= (1 + 2 * length years) * length tokens.
Proof.
  split_and!.
  - intros word Hword. by apply elem_of_append_years in Hword.
  - intros tokens' Hp. by apply append_years_order.
  - unfold append_years.
    assert (forall combos : gset string,
              size (foldl (fun combos token =>
                             foldl (fun combos y =>
                                      combos ∪ {[ token +:+ PyStr.str y ]}
                                             ∪ {[ token +:+ PyStr.last_two (PyStr.str y) ]})
                                   (combos ∪ {[ token ]}) years)
                          combos tokens)
              <= size combos + (1 + 2 * length years) * length tokens) as Hsize.
    { induction tokens as [|token tokens IH]; intros combos; simpl; [lia|].
      etrans; [apply IH|].
      assert (forall (combos : gset string),
                size (foldl (fun combos y =>
                               combos ∪ {[ token +:+ PyStr.str y ]}
                                      ∪ {[ token +:+ PyStr.last_two (PyStr.str y) ]})
                            combos years)
                <= size combos + 2 * length years) as Hinner.
      { clear. induction years as [|y years IH]; intros combos; simpl; [lia|].
        etrans; [apply IH|].
        pose proof (size_add_one (combos ∪ {[ token +:+ PyStr.str y ]})
                      (token +:+ PyStr.last_two (PyStr.str y))).
        pose proof (size_add_one combos (token +:+ PyStr.str y)). lia. }
      specialize (Hinner (combos ∪ {[ token ]})).
      pose proof (size_add_one combos token). lia. }
    specialize (Hsize ∅). by rewrite size_empty in Hsize.
Qed.

(* ===================================================================== *)
(** ** The empty list of years *)

(** C10, as the code has it: [parse_years] returns the empty list on
    "1800", whatever the current year; and whenever it returns after
    the loop has collected at least one year and every collected year
    lies outside [1900, 2100], it returns the empty list, the default
    window being kept for the case that nothing was collected. With an
    empty list of years every entry of the wordlist of [build_wordlist]
    is a stem, an expanded variant or two of them joined by a
    separator, to which no year is appended: [append_years] returns the
    tokens alone. *)
Theorem parse_years_can_be_empty :
  (forall current_year, parse_years current_year "1800" = Ok [])
  /\ (forall current_year years_arg collected years,
        parse_years current_year years_arg = Ok years ->
        collected_years years_arg = Ok collected ->
        collected <> [] ->
        Forall (fun y => ~ year_in_bounds y) collected ->
        years = [])
  /\ (forall tokens, append_years tokens [] = list_to_set tokens)
  /\ (forall (set_iter : gset string -> list string)
             (lemmatizer : option (string -> option string))
             (user_inputs separators : list string) (include_leet : bool)
             (max_size : Z) (word : string),
        (forall X, set_iter X ≡ₚ elements X) ->
        word ∈ build_wordlist set_iter lemmatizer user_inputs [] separators
                 include_leet max_size ->
        is_stem (expand_tokens include_leet
                   (tokenize_inputs lemmatizer user_inputs))
                separators word).
Proof.
  split_and!.
  - intros current_year. vm_compute. reflexivity.
  - intros current_year years_arg collected years Hyears Hloop Hsome Hout.
    rewrite parse_years_unfold, Hloop in Hyears. simpl in Hyears.
    injection Hyears as <-.
    destruct collected as [|y collected]; [done|].
    by rewrite filter_none.
  - intros tokens. apply set_eq. intros word.
    rewrite elem_of_append_years, elem_of_list_to_set. split.
    + intros (token & Ht & [->|(y & Hy & _)]); [done|].
      by apply elem_of_nil in Hy.
    + intros Hw. exists word. split; [done|by left].
  - intros set_iter lemmatizer user_inputs separators include_leet max_size
      word Horder Hword.
    apply (elem_of_build_wordlist set_iter Horder) in Hword.
    apply elem_of_wordlist_set in Hword
      as (stem & Hstem & [->|(y & Hy & _)]); [done|].
    by apply elem_of_nil in Hy.
Qed.

Lemma parse_years_can_be_empty_witness :
  parse_years 2026 "1800, 2200-2202" = Ok [].
Proof.
  destruct parse_years_can_be_empty as (_ & Hout & _).
  destruct (parse_years 2026 "1800, 2200-2202") as [years|e] eqn:Hyears;
    [|vm_compute in Hyears; discriminate].
  f_equal.
  apply (Hout 2026%Z "1800, 2200-2202" [1800; 2200; 2201; 2202]%Z years).
  - exact Hyears.
  - vm_compute. reflexivity.
  - discriminate.
  - repeat constructor; unfold year_in_bounds; lia.
Defined.

(** C10 as stated fails on "2200-2100": its one entry is read as a
    range, which has no year, so no resulting year lies in
    [1900, 2100]; nothing is collected and the window around the
    current year is returned. *)
Lemma parse_years_empty_range_gets_window :
  (forall part, part ∈ PyStr.split "," "2200-2100" ->
                year_entry (PyStr.strip part))
  /\ collected_years "2200-2100" = Ok []
  /\ parse_years 2026 "2200-2100" = Ok [2025; 2026; 2027]%Z
  /\ parse_years 2026 "2200-2100" <> Ok [].
Proof.
  split_and!.
  - intros part Hpart%list_elem_of_singleton. subst part.
    right. by exists "2200", "2100", 2200%Z, 2100%Z.
  - vm_compute. reflexivity.
  - vm_compute. reflexivity.
  - vm_compute. discriminate.
Qed.
